(** * The scheduler dispatcher of NodeFz: [deps/uv/src/scheduler.c]

    A shallow embedding of the dispatcher and the properties of its
    public, protected and private API.

    The file [scheduler.c] is the only source at hand.  What it takes from
    its headers is kept abstract:
    - the enumeration constants of [scheduler.h] are the fields of the
      class [Header];
    - the [ENABLE_SCHEDULER_*] preprocessor symbols are the fields of the
      class [Build];
    - the three policy constructors are the fields of the class
      [Policies];
    - the keyed map of [map.h] and the reentrant mutex of
      [synchronization.h] are modelled from their contracts.

    C [int] values are integers of [Z], with the wrap-around of a
    narrowing cast written out; a [char] buffer is a list of [ascii]; a
    call that does not return normally is an [outcome] other than
    [Returns]; a pointer into the frame of a call that has returned is
    [dangling]. *)

From Stdlib Require Import ZArith Ascii String List Lia Bool.
From stdpp Require Import base option list gmap strings.

Local Open Scope Z_scope.

(** ** Outcomes of a C call *)

Inductive outcome (A : Type) : Type :=
| Returns (a : A)  (* the call returns [a] *)
| Aborts           (* an [assert] failed: the process is aborted *)
| Undefined        (* the C standard gives the execution no meaning *)
| Blocks.          (* the calling thread waits for another thread *)

Arguments Returns {A} a.
Arguments Aborts {A}.
Arguments Undefined {A}.
Arguments Blocks {A}.

Definition returned {A : Type} (o : outcome A) : bool :=
  match o with Returns _ => true | _ => false end.

(** The outcome of a call whose result is passed through [f]. *)
Definition outcome_map {A B : Type} (f : A -> B) (o : outcome A) : outcome B :=
  match o with
  | Returns a => Returns (f a)
  | Aborts => Aborts
  | Undefined => Undefined
  | Blocks => Blocks
  end.

(** The address of an object with automatic storage, once the function
    that declares the object has returned: the lifetime of the object
    has ended, the value of the pointer is indeterminate and nothing can
    be read through it. *)
Inductive pointer : Type :=
| dangling.

(** ** C strings in fixed-size buffers *)

Definition NUL : ascii := Ascii.zero.

(** The characters of the C string stored at the start of [m]: those
    before the first NUL. *)
Fixpoint c_str (m : list ascii) : list ascii :=
  match m with
  | [] => []
  | c :: m' => if Ascii.eqb c NUL then [] else c :: c_str m'
  end.

(** [strlen] of a buffer: the index of its first NUL; [None] when the
    buffer holds no NUL, so that the scan leaves the object. *)
Fixpoint strlen (buf : list ascii) : option nat :=
  match buf with
  | [] => None
  | c :: buf' => if Ascii.eqb c NUL then Some 0%nat else S <$> strlen buf'
  end.

(** [strncpy(dst, src, n)]: the first [n] characters of the string [src],
    padded with NULs up to [n] bytes when [src] is shorter; no NUL is
    written when [src] has [n] characters or more.  The result is the new
    content of the [n] bytes of [dst]. *)
Definition strncpy (src : list ascii) (n : nat) : list ascii :=
  take n (c_str src) ++ replicate (n - length (c_str src)) NUL.

(** [strcpy(dst, src)] into a buffer of [cap] bytes, from the buffer
    [src]: the string of [src] and its NUL are written to [dst].  The
    result is the string now held by [dst]. *)
Definition strcpy (cap : nat) (src : list ascii) : outcome (list ascii) :=
  match strlen src with
  | None => Undefined
  | Some n => if (n + 1 <=? cap)%nat then Returns (take n src) else Undefined
  end.

(** [strcat(dst, lit)] where [dst], a buffer of [cap] bytes, holds the
    string [cur]. *)
Definition strcat (cap : nat) (cur lit : list ascii) : outcome (list ascii) :=
  if (length cur + length lit + 1 <=? cap)%nat
  then Returns (cur ++ lit) else Undefined.

(** ** Constants of [scheduler.h] and build configuration *)

Class Header := {
  SCHEDULER_MODE_MIN : Z;
  SCHEDULER_MODE_MAX : Z;
  SCHEDULER_MODE_REPLAY : Z;
  SCHEDULER_TYPE_CBTREE : Z
}.

Class Build := {
  ENABLE_SCHEDULER_CBTREE : bool;
  ENABLE_SCHEDULER_FUZZER_TIMER : bool;
  ENABLE_SCHEDULER_FUZZER_THREAD_ORDER : bool
}.

(** ** Functions for scheduler typedefs *)

(** An array of [n] strings with the initialisers [init]: initialisers
    beyond the array are dropped, elements without one are null. *)
Definition string_table (n : Z) (init : list string) : list (option string) :=
  take (Z.to_nat n) (Some <$> init)
    ++ replicate (Z.to_nat n - length init) None.

Section Typedefs.
Context {hdr : Header}.

Definition scheduler_type_strings : list (option string) :=
  string_table (SCHEDULER_MODE_MAX - SCHEDULER_MODE_MIN + 1)
    ["CBTREE"; "FUZZER_TIMER"; "FUZZER_THREAD_ORDER"]%string.

Definition scheduler_mode_strings : list (option string) :=
  string_table (SCHEDULER_MODE_MAX - SCHEDULER_MODE_MIN + 1)
    ["RECORD"; "REPLAY"]%string.

Definition thread_type_strings : list (option string) :=
  string_table (SCHEDULER_MODE_MAX - SCHEDULER_MODE_MIN + 1)
    ["LOOPER"; "THREADPOOL"]%string.

Definition schedule_point_strings : list (option string) :=
  string_table (SCHEDULER_MODE_MAX - SCHEDULER_MODE_MIN + 1)
    ["BEFORE_EXEC_CB"; "AFTER_EXEC_CB";
     "TP_BEFORE_GET_WORK"; "TP_AFTER_GET_WORK";
     "TP_BEFORE_PUT_DONE"; "TP_AFTER_PUT_DONE"]%string.

(** Reading [table[i]]; an index outside the array has no meaning. *)
Definition table_read (table : list (option string)) (i : Z)
  : outcome (option string) :=
  if (0 <=? i) then
    match table !! Z.to_nat i with
    | Some str => Returns str
    | None => Undefined
    end
  else Undefined.

Definition scheduler_type_to_string (type : Z) : outcome (option string) :=
  if (SCHEDULER_MODE_MIN <=? type) && (type <? SCHEDULER_MODE_MAX)
  then table_read scheduler_type_strings (type - SCHEDULER_MODE_MIN)
  else Aborts.

Definition scheduler_mode_to_string (mode : Z) : outcome (option string) :=
  if (SCHEDULER_MODE_MIN <=? mode) && (mode <? SCHEDULER_MODE_MAX)
  then table_read scheduler_mode_strings (mode - SCHEDULER_MODE_MIN)
  else Aborts.

Definition thread_type_to_string (type : Z) : outcome (option string) :=
  if (SCHEDULER_MODE_MIN <=? type) && (type <? SCHEDULER_MODE_MAX)
  then table_read thread_type_strings (type - SCHEDULER_MODE_MIN)
  else Aborts.

(** The body of [schedule_point_to_string] never names its parameter
    [point]: both the assertion and the table index name [type], which
    this function does not declare.  [type] is therefore whatever object
    of that name is in scope, given here as an argument. *)
Definition schedule_point_to_string (type : Z) (point : Z)
  : outcome (option string) :=
  if (SCHEDULER_MODE_MIN <=? type) && (type <? SCHEDULER_MODE_MAX)
  then table_read schedule_point_strings (type - SCHEDULER_MODE_MIN)
  else Aborts.
End Typedefs.

(** ** The scheduler *)

Definition SCHEDULER_MAGIC : Z := 8675309. (* Jenny. *)

(** The narrowing cast [(int) x] of a wider integer: the low 32 bits,
    read as a signed value. *)
Definition cast_int (x : Z) : Z := (x + 2 ^ 31) mod 2 ^ 32 - 2 ^ 31.

(** Modelled from the spec: the reentrant lock of [synchronization.h],
    which is absent.  A thread that holds the lock may acquire it again;
    another thread waits. *)
Record reentrant_mutex_t := {
  owner : option Z;
  depth : nat
}.

(** Modelled from the spec: [reentrant_mutex_init] of
    [synchronization.h], which is absent, leaves the lock unlocked. *)
Definition reentrant_mutex_init : reentrant_mutex_t :=
  {| owner := None; depth := 0 |}.

(** Modelled from the spec: [reentrant_mutex_lock] of
    [synchronization.h], which is absent, called by the thread [self]. *)
Definition reentrant_mutex_lock (self : Z) (m : reentrant_mutex_t)
  : outcome reentrant_mutex_t :=
  match owner m with
  | None => Returns {| owner := Some self; depth := 1 |}
  | Some t =>
      if decide (t = self)
      then Returns {| owner := Some self; depth := S (depth m) |}
      else Blocks
  end.

(** Modelled from the spec: [reentrant_mutex_unlock] of
    [synchronization.h], which is absent, called by the thread [self];
    the spec does not say what a thread that does not hold the lock
    gets. *)
Definition reentrant_mutex_unlock (self : Z) (m : reentrant_mutex_t)
  : outcome reentrant_mutex_t :=
  match owner m with
  | None => Undefined
  | Some t =>
      if decide (t = self)
      then match depth m with
           | S (S d) => Returns {| owner := Some self; depth := S d |}
           | _ => Returns {| owner := None; depth := 0 |}
           end
      else Undefined
  end.

(** The table of function pointers of a policy, [schedulerImpl_t].  A
    member is [None] while the pointer is null.  A routine receives the
    [void *implDetails] handle and acts on the memory the policy owns, of
    type [details]; like any call it may return, abort, block its caller
    or have no meaning. *)
Record schedulerImpl_t (details : Type) := {
  register_lcbn : option (Z -> Z -> details -> outcome details);
  next_lcbn_type : option (Z -> details -> outcome (Z * details));
  thread_yield : option (Z -> Z -> Z -> details -> outcome details);
  emit : option (list ascii -> Z -> details -> outcome details);
  lcbns_remaining : option (Z -> details -> outcome (Z * details));
  has_diverged : option (Z -> details -> outcome (Z * details))
}.

Arguments register_lcbn {details} _.
Arguments next_lcbn_type {details} _.
Arguments thread_yield {details} _.
Arguments emit {details} _.
Arguments lcbns_remaining {details} _.
Arguments has_diverged {details} _.

(** The table of a [scheduler] that is all zero. *)
Definition no_impl {details : Type} : schedulerImpl_t details :=
  {| register_lcbn := None; next_lcbn_type := None; thread_yield := None;
     emit := None; lcbns_remaining := None; has_diverged := None |}.

(** The three constructors, [scheduler_cbTree_init],
    [scheduler_fuzzer_timer_init] and [scheduler_fuzzer_threadOrder_init],
    whose code is absent.  Each is taken as a function of [mode] and
    [args] alone: it writes [*impl] and [*implDetails] and builds the
    policy's own memory, or does not return, and a second call does what
    the first did.  The members it writes to [*impl] may be null. *)
Class Policies (details : Type) := {
  scheduler_cbTree_init :
    Z -> Z -> outcome (schedulerImpl_t details * Z * details);
  scheduler_fuzzer_timer_init :
    Z -> Z -> outcome (schedulerImpl_t details * Z * details);
  scheduler_fuzzer_threadOrder_init :
    Z -> Z -> outcome (schedulerImpl_t details * Z * details)
}.

(** The global [struct { ... } scheduler].  [tidToType] stands for the
    pointer together with the map it points to ([None] is the null
    pointer). *)
Module scheduler.
Record t (details : Type) := {
  magic : Z;
  (* Constants. *)
  type : Z;
  mode : Z;
  schedule_file : list ascii;
  args : Z;
  (* Things we can track ourselves. *)
  n_executed : Z;
  tidToType : option (gmap Z Z);
  (* Synchronization. *)
  mutex : reentrant_mutex_t;
  (* Implementation-dependent. *)
  impl : schedulerImpl_t details;
  implDetails : Z
}.

Arguments magic {details} _.
Arguments type {details} _.
Arguments mode {details} _.
Arguments schedule_file {details} _.
Arguments args {details} _.
Arguments n_executed {details} _.
Arguments tidToType {details} _.
Arguments mutex {details} _.
Arguments impl {details} _.
Arguments implDetails {details} _.

Section Assign.
Context {details : Type}.
Implicit Type s : t details.

Definition set_magic (v : Z) s : t details :=
  {| magic := v; type := type s; mode := mode s;
     schedule_file := schedule_file s; args := args s;
     n_executed := n_executed s; tidToType := tidToType s;
     mutex := mutex s; impl := impl s; implDetails := implDetails s |}.
Definition set_type (v : Z) s : t details :=
  {| magic := magic s; type := v; mode := mode s;
     schedule_file := schedule_file s; args := args s;
     n_executed := n_executed s; tidToType := tidToType s;
     mutex := mutex s; impl := impl s; implDetails := implDetails s |}.
Definition set_mode (v : Z) s : t details :=
  {| magic := magic s; type := type s; mode := v;
     schedule_file := schedule_file s; args := args s;
     n_executed := n_executed s; tidToType := tidToType s;
     mutex := mutex s; impl := impl s; implDetails := implDetails s |}.
Definition set_schedule_file (v : list ascii) s : t details :=
  {| magic := magic s; type := type s; mode := mode s;
     schedule_file := v; args := args s;
     n_executed := n_executed s; tidToType := tidToType s;
     mutex := mutex s; impl := impl s; implDetails := implDetails s |}.
Definition set_args (v : Z) s : t details :=
  {| magic := magic s; type := type s; mode := mode s;
     schedule_file := schedule_file s; args := v;
     n_executed := n_executed s; tidToType := tidToType s;
     mutex := mutex s; impl := impl s; implDetails := implDetails s |}.
Definition set_n_executed (v : Z) s : t details :=
  {| magic := magic s; type := type s; mode := mode s;
     schedule_file := schedule_file s; args := args s;
     n_executed := v; tidToType := tidToType s;
     mutex := mutex s; impl := impl s; implDetails := implDetails s |}.
Definition set_tidToType (v : option (gmap Z Z)) s : t details :=
  {| magic := magic s; type := type s; mode := mode s;
     schedule_file := schedule_file s; args := args s;
     n_executed := n_executed s; tidToType := v;
     mutex := mutex s; impl := impl s; implDetails := implDetails s |}.
Definition set_mutex (v : reentrant_mutex_t) s : t details :=
  {| magic := magic s; type := type s; mode := mode s;
     schedule_file := schedule_file s; args := args s;
     n_executed := n_executed s; tidToType := tidToType s;
     mutex := v; impl := impl s; implDetails := implDetails s |}.
Definition set_impl (v : schedulerImpl_t details) s : t details :=
  {| magic := magic s; type := type s; mode := mode s;
     schedule_file := schedule_file s; args := args s;
     n_executed := n_executed s; tidToType := tidToType s;
     mutex := mutex s; impl := v; implDetails := implDetails s |}.
Definition set_implDetails (v : Z) s : t details :=
  {| magic := magic s; type := type s; mode := mode s;
     schedule_file := schedule_file s; args := args s;
     n_executed := n_executed s; tidToType := tidToType s;
     mutex := mutex s; impl := impl s; implDetails := v |}.
End Assign.
End scheduler.

(** The calls that leave [scheduler.c], in the order they are made. *)
Inductive event : Type :=
| call_strncpy
| call_strcpy
| call_strcat
| call_uv_thread_self
| call_map_create
| call_reentrant_mutex_init
| call_cbTree_init (mode args : Z)
| call_fuzzer_timer_init (mode args : Z)
| call_fuzzer_threadOrder_init (mode args : Z)
| call_map_insert (key value : Z)
| call_map_lookup (key : Z)
| call_register_lcbn (lcbn : Z)
| call_next_lcbn_type
| call_thread_yield (point pointDetails : Z)
| call_emit (output_file : list ascii)
| call_lcbns_remaining
| call_has_diverged
| call_reentrant_mutex_lock (self : Z)
| call_reentrant_mutex_unlock (self : Z).

(** The state of the process as this file sees it: its globals, the
    memory of the active policy, and the calls made so far.
    [initialized] is the object that [scheduler_init] names in its first
    assertion; it is not [scheduler_initialized], and this file neither
    declares nor assigns it. *)
Record process (details : Type) := {
  initialized : Z;
  scheduler_initialized : Z;
  the_scheduler : scheduler.t details;
  policy : details;
  calls : list event
}.

Arguments initialized {details} _.
Arguments scheduler_initialized {details} _.
Arguments the_scheduler {details} _.
Arguments policy {details} _.
Arguments calls {details} _.

(** ** A state monad over the process, with the outcomes of C *)

Definition M (details A : Type) : Type :=
  process details -> outcome (A * process details).

#[global] Instance M_ret {details} : MRet (M details) :=
  fun A a p => Returns (a, p).

#[global] Instance M_bind {details} : MBind (M details) :=
  fun A B f m p =>
    match m p with
    | Returns (a, p') => f a p'
    | Aborts => Aborts
    | Undefined => Undefined
    | Blocks => Blocks
    end.

Section Primitives.
Context {details : Type}.

(** Ending the call with an outcome that is not a return. *)
Definition stop {A : Type} (o : outcome unit) : M details A :=
  fun _ =>
    match o with
    | Returns _ => Undefined
    | Aborts => Aborts
    | Undefined => Undefined
    | Blocks => Blocks
    end.

(** The outcome of a pure C library call. *)
Definition lift {A : Type} (o : outcome A) : M details A :=
  fun p =>
    match o with
    | Returns a => Returns (a, p)
    | Aborts => Aborts
    | Undefined => Undefined
    | Blocks => Blocks
    end.

(** [assert(b)] *)
Definition assert (b : bool) : M details unit :=
  if b then mret tt else stop Aborts.

(** Reading and assigning a member of [scheduler]. *)
Definition load {A : Type} (f : scheduler.t details -> A) : M details A :=
  fun p => Returns (f (the_scheduler p), p).

Definition store (f : scheduler.t details -> scheduler.t details)
  : M details unit :=
  fun p =>
    Returns (tt, {| initialized := initialized p;
                    scheduler_initialized := scheduler_initialized p;
                    the_scheduler := f (the_scheduler p);
                    policy := policy p;
                    calls := calls p |}).

Definition load_initialized : M details Z :=
  fun p => Returns (initialized p, p).

Definition load_scheduler_initialized : M details Z :=
  fun p => Returns (scheduler_initialized p, p).

(** The state in which the policy's memory has become [d]. *)
Definition with_policy (d : details) (p : process details) : process details :=
  {| initialized := initialized p;
     scheduler_initialized := scheduler_initialized p;
     the_scheduler := the_scheduler p;
     policy := d;
     calls := calls p |}.

(** A routine of the policy acting on the policy's memory. *)
Definition on_policy {A : Type} (f : details -> outcome (A * details))
  : M details A :=
  fun p => outcome_map (fun r => (r.1, with_policy r.2 p)) (f (policy p)).

(** A routine that returns [void]. *)
Definition returning_void (o : outcome details) : outcome (unit * details) :=
  outcome_map (fun d => (tt, d)) o.

(** Recording a call that leaves this file. *)
Definition call (e : event) : M details unit :=
  fun p =>
    Returns (tt, {| initialized := initialized p;
                    scheduler_initialized := scheduler_initialized p;
                    the_scheduler := the_scheduler p;
                    policy := policy p;
                    calls := calls p ++ [e] |}).

(** A call of the C library, with its outcome. *)
Definition libc {A : Type} (e : event) (o : outcome A) : M details A :=
  call e;; lift o.

(** Modelled from the spec: [map_create] of [map.h], which is absent,
    returns a new, empty map. *)
Definition map_create : M details (option (gmap Z Z)) :=
  call call_map_create;; mret (Some ∅).

(** Modelled from the spec: [map_insert] of [map.h], which is absent,
    binds [key] to [value] in the map.  The spec leaves open what becomes
    of a key that is bound already; here the new value takes the place of
    the old one. *)
Definition map_insert (map : option (gmap Z Z)) (key value : Z)
  : M details (option (gmap Z Z)) :=
  match map with
  | None => stop Undefined
  | Some m => call (call_map_insert key value);; mret (Some (<[key:=value]> m))
  end.

(** Modelled from the spec: [map_lookup] of [map.h], which is absent,
    returns the value bound to [key] and sets [*found] to whether there
    is one. *)
Definition map_lookup (map : option (gmap Z Z)) (key : Z)
  : M details (Z * bool) :=
  match map with
  | None => stop Undefined
  | Some m =>
      call (call_map_lookup key);;
      mret (match m !! key with
            | Some v => (v, true)
            | None => (0, false)
            end)
  end.

(** Calling through a member of [scheduler.impl], with
    [scheduler.implDetails] as the last argument. *)
Definition through_impl {A : Type}
    (e : event)
    (member : schedulerImpl_t details ->
              option (Z -> details -> outcome (A * details)))
  : M details A :=
  i ← load scheduler.impl;
  d ← load scheduler.implDetails;
  match member i with
  | None => stop Undefined
  | Some routine => call e;; on_policy (routine d)
  end.
End Primitives.

Section Scheduler.
Context {details : Type} {hdr : Header} {bld : Build}
        {pol : Policies details}.

(** *** Private scheduler API *)

Definition scheduler__looks_valid : M details bool :=
  si ← load_scheduler_initialized;
  mg ← load scheduler.magic;
  mret (negb (si =? 0) && (mg =? SCHEDULER_MAGIC)).

(** *** Public scheduler API *)

(** A policy constructor called with [&scheduler.impl] and
    [&scheduler.implDetails]. *)
Definition construct
    (e : event) (init : outcome (schedulerImpl_t details * Z * details))
  : M details unit :=
  call e;;
  match init with
  | Returns (table, handle, d) =>
      store (scheduler.set_impl table);;
      store (scheduler.set_implDetails handle);;
      on_policy (fun _ => Returns (tt, d))
  | Aborts => stop Aborts
  | Undefined => stop Undefined
  | Blocks => stop Blocks
  end.

(** The body of [switch (scheduler.type)], one definition per entry
    point, last first.  Only [SCHEDULER_TYPE_CBTREE] and [default] are
    [case] labels; [SCHEDULER_TYPE_FUZZER_TIMER:] and
    [SCHEDULER_TYPE_FUZZER_THREAD_ORDER:] are written without [case] and
    are plain statement labels, reached by falling through only.  A
    constructor left out by the preprocessor takes its [break] with
    it. *)
Definition at_default : M details unit :=
  assert false. (* "How did we get here?" *)

Definition at_SCHEDULER_TYPE_FUZZER_THREAD_ORDER (mode args : Z)
  : M details unit :=
  if ENABLE_SCHEDULER_FUZZER_THREAD_ORDER
  then construct (call_fuzzer_threadOrder_init mode args)
                 (scheduler_fuzzer_threadOrder_init mode args)
  else at_default.

Definition at_SCHEDULER_TYPE_FUZZER_TIMER (mode args : Z) : M details unit :=
  if ENABLE_SCHEDULER_FUZZER_TIMER
  then construct (call_fuzzer_timer_init mode args)
                 (scheduler_fuzzer_timer_init mode args)
  else at_SCHEDULER_TYPE_FUZZER_THREAD_ORDER mode args.

Definition at_SCHEDULER_TYPE_CBTREE (mode args : Z) : M details unit :=
  if ENABLE_SCHEDULER_CBTREE
  then construct (call_cbTree_init mode args)
                 (scheduler_cbTree_init mode args)
  else at_SCHEDULER_TYPE_FUZZER_TIMER mode args.

Definition scheduler_init
    (type mode : Z) (schedule_file : list ascii) (args : Z)
  : M details unit :=
  i ← load_initialized;
  assert (i =? 0);;
  (* Shared amongst all scheduler implementations. *)
  store (scheduler.set_magic SCHEDULER_MAGIC);;
  store (scheduler.set_type type);;
  store (scheduler.set_mode mode);;
  file ← libc call_strncpy (Returns (strncpy schedule_file 1024));
  store (scheduler.set_schedule_file file);;
  store (scheduler.set_args args);;
  store (scheduler.set_n_executed 0);;
  m ← map_create;
  store (scheduler.set_tidToType m);;
  t ← load scheduler.tidToType;
  assert (bool_decide (is_Some t));;
  call call_reentrant_mutex_init;;
  store (scheduler.set_mutex reentrant_mutex_init);;
  (* Specifics based on the scheduler type. *)
  ty ← load scheduler.type;
  if bool_decide (ty = SCHEDULER_TYPE_CBTREE)
  then at_SCHEDULER_TYPE_CBTREE mode args
  else at_default.

(** [self] is [uv_thread_self()], the identity of the calling thread, a
    [pthread_t]. *)
Definition scheduler_register_thread (self : Z) (type : Z) : M details unit :=
  v ← scheduler__looks_valid;
  assert v;;
  t ← load scheduler.tidToType;
  call call_uv_thread_self;;
  t' ← map_insert t (cast_int self) type;
  store (scheduler.set_tidToType t').

Definition scheduler_register_lcbn (lcbn : Z) : M details unit :=
  v ← scheduler__looks_valid;
  assert v;;
  through_impl (call_register_lcbn lcbn)
    (fun table =>
       (fun routine d st => returning_void (routine lcbn d st))
         <$> register_lcbn table).

Definition scheduler_next_lcbn_type : M details Z :=
  v ← scheduler__looks_valid;
  assert v;;
  through_impl call_next_lcbn_type next_lcbn_type.

Definition scheduler_thread_yield (point pointDetails : Z) : M details unit :=
  v ← scheduler__looks_valid;
  assert v;;
  through_impl (call_thread_yield point pointDetails)
    (fun table =>
       (fun routine d st => returning_void (routine point pointDetails d st))
         <$> thread_yield table).

(** [output_file] is the string held by the local array of that name.
    What the function returns is the address of that array, whose
    lifetime ends with the call. *)
Definition scheduler_emit : M details pointer :=
  v ← scheduler__looks_valid;
  assert v;;
  file ← load scheduler.schedule_file;
  output_file ← libc call_strcpy (strcpy 1024 file);
  md ← load scheduler.mode;
  output_file ←
    (if bool_decide (md = SCHEDULER_MODE_REPLAY)
     then libc call_strcat
            (strcat 1024 output_file (list_ascii_of_string "-replay"))
     else mret output_file);
  through_impl (call_emit output_file)
    (fun table =>
       (fun routine d st => returning_void (routine output_file d st))
         <$> emit table);;
  mret dangling.

Definition scheduler_lcbns_remaining : M details Z :=
  v ← scheduler__looks_valid;
  assert v;;
  through_impl call_lcbns_remaining lcbns_remaining.

Definition scheduler_schedule_has_diverged : M details Z :=
  v ← scheduler__looks_valid;
  assert v;;
  through_impl call_has_diverged has_diverged.

Definition scheduler_n_executed : M details Z :=
  v ← scheduler__looks_valid;
  assert v;;
  (* Not thread-safe, but monotonically increasing so NBD. *)
  load scheduler.n_executed.

Definition scheduler_get_scheduler_mode : M details Z :=
  v ← scheduler__looks_valid;
  assert v;;
  load scheduler.mode.

(** *** "Protected" scheduler API *)

Definition scheduler__lock (self : Z) : M details unit :=
  call (call_reentrant_mutex_lock self);;
  mx ← load scheduler.mutex;
  mx' ← lift (reentrant_mutex_lock self mx);
  store (scheduler.set_mutex mx').

Definition scheduler__unlock (self : Z) : M details unit :=
  call (call_reentrant_mutex_unlock self);;
  mx ← load scheduler.mutex;
  mx' ← lift (reentrant_mutex_unlock self mx);
  store (scheduler.set_mutex mx').

Definition scheduler__get_thread_type (tid : Z) : M details Z :=
  t ← load scheduler.tidToType;
  r ← map_lookup t (cast_int tid);
  assert (snd r);;
  mret (fst r).

(** *** The facade as one interface *)

(** The nine operations that follow [scheduler_init]. *)
Inductive facade_op : Type :=
| registerThread (self role : Z)
| registerCallback (lcbn : Z)
| nextCallbackType
| yield (point pointDetails : Z)
| emitSchedule
| remainingCount
| hasDiverged
| executedCount
| getMode.

Inductive value : Type :=
| VVoid
| VInt (z : Z)
| VPointer (p : pointer).

Definition facade_call (op : facade_op) : M details value :=
  match op with
  | registerThread self role =>
      scheduler_register_thread self role;; mret VVoid
  | registerCallback lcbn => scheduler_register_lcbn lcbn;; mret VVoid
  | nextCallbackType => z ← scheduler_next_lcbn_type; mret (VInt z)
  | yield point pd => scheduler_thread_yield point pd;; mret VVoid
  | emitSchedule => p ← scheduler_emit; mret (VPointer p)
  | remainingCount => z ← scheduler_lcbns_remaining; mret (VInt z)
  | hasDiverged => z ← scheduler_schedule_has_diverged; mret (VInt z)
  | executedCount => z ← scheduler_n_executed; mret (VInt z)
  | getMode => z ← scheduler_get_scheduler_mode; mret (VInt z)
  end.

Definition is_registerThread (op : facade_op) : bool :=
  match op with registerThread _ _ => true | _ => false end.

(** A run of facade operations, one after the other, with the values
    they returned; the run ends with the first call that does not
    return. *)
Fixpoint facade_run (ops : list facade_op) : M details (list value) :=
  match ops with
  | [] => mret []
  | op :: ops' =>
      v ← facade_call op;
      vs ← facade_run ops';
      mret (v :: vs)
  end.

(** The constructor that control reaches from [case
    SCHEDULER_TYPE_CBTREE], with the call it is recorded as: the first
    one compiled in, in the order of the source text. *)
Definition reached_from_CBTREE (mode args : Z)
  : option (event * outcome (schedulerImpl_t details * Z * details)) :=
  if ENABLE_SCHEDULER_CBTREE
  then Some (call_cbTree_init mode args, scheduler_cbTree_init mode args)
  else if ENABLE_SCHEDULER_FUZZER_TIMER
  then Some (call_fuzzer_timer_init mode args,
             scheduler_fuzzer_timer_init mode args)
  else if ENABLE_SCHEDULER_FUZZER_THREAD_ORDER
  then Some (call_fuzzer_threadOrder_init mode args,
             scheduler_fuzzer_threadOrder_init mode args)
  else None.
End Scheduler.

(** ** Reading a run: counters and locking *)

(** The values that the [executedCount] calls of a run returned, in
    order. *)
Fixpoint executed_counts (ops : list facade_op) (vs : list value) : list Z :=
  match ops, vs with
  | executedCount :: ops', VInt z :: vs' => z :: executed_counts ops' vs'
  | _ :: ops', _ :: vs' => executed_counts ops' vs'
  | _, _ => []
  end.

Definition is_lock_call (e : event) : bool :=
  match e with
  | call_reentrant_mutex_lock _ | call_reentrant_mutex_unlock _ => true
  | _ => false
  end.

(** The calls by which a facade operation hands its work on: to the
    policy, or to the registry. *)
Definition is_forward (e : event) : bool :=
  match e with
  | call_map_insert _ _ | call_register_lcbn _ | call_next_lcbn_type
  | call_thread_yield _ _ | call_emit _ | call_lcbns_remaining
  | call_has_diverged => true
  | _ => false
  end.

(** Whether every forward call of a trace is made with the lock held,
    [held] being the number of acquisitions not yet released, and the lock
    is released at the end. *)
Fixpoint forwards_under_lock (held : nat) (tr : list event) : bool :=
  match tr with
  | [] => (held =? 0)%nat
  | call_reentrant_mutex_lock _ :: tr' => forwards_under_lock (S held) tr'
  | call_reentrant_mutex_unlock _ :: tr' =>
      match held with
      | O => false
      | S h => forwards_under_lock h tr'
      end
  | e :: tr' =>
      (negb (is_forward e) || (0 <? held)%nat) && forwards_under_lock held tr'
  end.

(** The calls made between two states of the process. *)
Definition calls_since {details : Type} (p p' : process details) : list event :=
  drop (length (calls p)) (calls p').

(** What [scheduler__looks_valid] computes, as a function of the state. *)
Definition looks_valid {details : Type} (p : process details) : bool :=
  negb (scheduler_initialized p =? 0)
  && (scheduler.magic (the_scheduler p) =? SCHEDULER_MAGIC).

(** The state that [scheduler_init] leaves when the constructor it
    reaches returns [table], [handle] and the policy memory [d], having
    been recorded as the call [e]. *)
Definition initialised {details : Type}
    (type mode : Z) (schedule_file : list ascii) (args : Z)
    (e : event) (table : schedulerImpl_t details) (handle : Z) (d : details)
    (p : process details) : process details :=
  {| initialized := initialized p;
     scheduler_initialized := scheduler_initialized p;
     the_scheduler :=
       {| scheduler.magic := SCHEDULER_MAGIC;
          scheduler.type := type;
          scheduler.mode := mode;
          scheduler.schedule_file := strncpy schedule_file 1024;
          scheduler.args := args;
          scheduler.n_executed := 0;
          scheduler.tidToType := Some ∅;
          scheduler.mutex := reentrant_mutex_init;
          scheduler.impl := table;
          scheduler.implDetails := handle |};
     policy := d;
     calls := calls p ++ [call_strncpy; call_map_create;
                          call_reentrant_mutex_init; e] |}.

(** ** One build of the scheduler, to run the model on *)

Module Sample.
(** A [scheduler.h] with RECORD = 0 and REPLAY = 1, and CBTREE = 0,
    FUZZER_TIMER = 1, FUZZER_THREAD_ORDER = 2. *)
Definition header : Header :=
  {| SCHEDULER_MODE_MIN := 0; SCHEDULER_MODE_MAX := 2;
     SCHEDULER_MODE_REPLAY := 1; SCHEDULER_TYPE_CBTREE := 0 |}.

Definition SCHEDULER_MODE_RECORD : Z := 0.
Definition SCHEDULER_TYPE_FUZZER_TIMER : Z := 1.
Definition SCHEDULER_TYPE_FUZZER_THREAD_ORDER : Z := 2.
Definition LOOPER : Z := 0.
Definition THREADPOOL : Z := 1.

(** Every policy compiled in. *)
Definition build : Build :=
  {| ENABLE_SCHEDULER_CBTREE := true;
     ENABLE_SCHEDULER_FUZZER_TIMER := true;
     ENABLE_SCHEDULER_FUZZER_THREAD_ORDER := true |}.

(** A policy that keeps the list of the requests made to it. *)
Definition journal : schedulerImpl_t (list event) :=
  {| register_lcbn :=
       Some (fun lcbn _ st => Returns (st ++ [call_register_lcbn lcbn]));
     next_lcbn_type := Some (fun _ st => Returns (0, st));
     thread_yield :=
       Some (fun point pd _ st => Returns (st ++ [call_thread_yield point pd]));
     emit := Some (fun path _ st => Returns (st ++ [call_emit path]));
     lcbns_remaining := Some (fun _ st => Returns (0, st));
     has_diverged := Some (fun _ st => Returns (0, st)) |}.

Definition policies : Policies (list event) :=
  {| scheduler_cbTree_init := fun _ _ => Returns (journal, 4096, []);
     scheduler_fuzzer_timer_init := fun _ _ => Returns (journal, 4096, []);
     scheduler_fuzzer_threadOrder_init :=
       fun _ _ => Returns (journal, 4096, []) |}.

(** The process at start-up: every global is zero. *)
Definition boot : process (list event) :=
  {| initialized := 0;
     scheduler_initialized := 0;
     the_scheduler :=
       {| scheduler.magic := 0; scheduler.type := 0; scheduler.mode := 0;
          scheduler.schedule_file := replicate 1024 NUL;
          scheduler.args := 0; scheduler.n_executed := 0;
          scheduler.tidToType := None;
          scheduler.mutex := reentrant_mutex_init;
          scheduler.impl := no_impl; scheduler.implDetails := 0 |};
     policy := [];
     calls := [] |}.

(** The same process with [scheduler_initialized] set, as only code
    outside [scheduler.c] can set it. *)
Definition armed : process (list event) :=
  {| initialized := 0;
     scheduler_initialized := 1;
     the_scheduler := the_scheduler boot;
     policy := [];
     calls := [] |}.

Definition init (type mode : Z) (schedule_file : string) (args : Z)
  : M (list event) unit :=
  scheduler_init (hdr := header) (bld := build) (pol := policies)
    type mode (list_ascii_of_string schedule_file) args.

(** The state a call leaves behind, or [p] when it does not return. *)
Definition state_after {A : Type}
    (m : M (list event) A) (p : process (list event)) : process (list event) :=
  match m p with
  | Returns (_, p') => p'
  | _ => p
  end.

Definition run_sched : string := "run.sched".

(** After [scheduler_init(CBTREE, RECORD, "run.sched", NULL)]. *)
Definition booted : process (list event) :=
  state_after (init 0 0 run_sched 0) boot.

(** The same, and in REPLAY mode, with the flag set from outside. *)
Definition recording : process (list event) :=
  state_after (init 0 0 run_sched 0) armed.

Definition replaying : process (list event) :=
  state_after (init 0 1 run_sched 0) armed.

(** A path of [n] characters. *)
Definition long_path (n : nat) : list ascii :=
  replicate n "a"%char.

Definition replaying_long : process (list event) :=
  state_after
    (scheduler_init (hdr := header) (bld := build) (pol := policies)
       0 1 (long_path 1020) 0) armed.

(** Two [pthread_t] values 4 GiB apart. *)
Definition thread_a : Z := 0x7f3a12345700.
Definition thread_b : Z := 0x7f3b12345700.
End Sample.

(** ** The whole interface, and what a run amounts to *)

(** The value a call returns, without the state it leaves. *)
Definition result_of {A S : Type} (o : outcome (A * S)) : outcome A :=
  match o with
  | Returns (a, _) => Returns a
  | Aborts => Aborts
  | Undefined => Undefined
  | Blocks => Blocks
  end.

(** The initialisers of the four tables, as written in the source. *)
Definition scheduler_type_names : list string :=
  ["CBTREE"; "FUZZER_TIMER"; "FUZZER_THREAD_ORDER"]%string.
Definition scheduler_mode_names : list string :=
  ["RECORD"; "REPLAY"]%string.
Definition thread_type_names : list string :=
  ["LOOPER"; "THREADPOOL"]%string.

(** The string that [scheduler_emit] builds from the stored path and the
    mode, when it fits. *)
Definition output_path {hdr : Header} (file : list ascii) (mode : Z)
  : list ascii :=
  c_str file
    ++ (if bool_decide (mode = SCHEDULER_MODE_REPLAY)
        then list_ascii_of_string "-replay" else []).

(** The bytes [scheduler_emit] needs in [output_file] for a stored path
    of [n] characters. *)
Definition output_size {hdr : Header} (n : nat) (mode : Z) : nat :=
  (n + (if bool_decide (mode = SCHEDULER_MODE_REPLAY) then 8 else 1))%nat.

Section Api.
Context {details : Type} {hdr : Header} {bld : Build}
        {pol : Policies details}.

(** Every function that [scheduler.c] offers to the rest of the
    program. *)
Inductive api_op : Type :=
| api_init (type mode : Z) (schedule_file : list ascii) (args : Z)
| api_facade (op : facade_op)
| api_lock (self : Z)
| api_unlock (self : Z)
| api_get_thread_type (tid : Z).

Definition api_call (op : api_op) : M details unit :=
  match op with
  | api_init type mode schedule_file args =>
      scheduler_init type mode schedule_file args
  | api_facade op => facade_call op;; mret tt
  | api_lock self => scheduler__lock self
  | api_unlock self => scheduler__unlock self
  | api_get_thread_type tid => scheduler__get_thread_type tid;; mret tt
  end.

Fixpoint api_run (ops : list api_op) : M details unit :=
  match ops with
  | [] => mret tt
  | op :: ops' => api_call op;; api_run ops'
  end.

(** Threads registering one after the other, each with its role. *)
Fixpoint register_all (regs : list (Z * Z)) : M details unit :=
  match regs with
  | [] => mret tt
  | (self, role) :: regs' =>
      scheduler_register_thread self role;; register_all regs'
  end.

(** The same call made [k] times. *)
Fixpoint times (k : nat) (m : M details unit) : M details unit :=
  match k with
  | O => mret tt
  | S k' => m;; times k' m
  end.

(** What one facade operation asks of the policy, and the value the
    operation returns: a routine of [table] called with [handle].
    [path] is the output path, [count] and [mode] are the members
    [n_executed] and [mode] of the context. *)
Definition policy_call
    (table : schedulerImpl_t details) (handle : Z) (path : list ascii)
    (count mode : Z) (op : facade_op) (d : details)
  : outcome (value * details) :=
  match op with
  | registerCallback lcbn =>
      match register_lcbn table with
      | Some routine =>
          outcome_map (fun d' => (VVoid, d')) (routine lcbn handle d)
      | None => Undefined
      end
  | nextCallbackType =>
      match next_lcbn_type table with
      | Some routine => outcome_map (fun r => (VInt r.1, r.2)) (routine handle d)
      | None => Undefined
      end
  | yield point pointDetails =>
      match thread_yield table with
      | Some routine =>
          outcome_map (fun d' => (VVoid, d'))
            (routine point pointDetails handle d)
      | None => Undefined
      end
  | emitSchedule =>
      match emit table with
      | Some routine =>
          outcome_map (fun d' => (VPointer dangling, d'))
            (routine path handle d)
      | None => Undefined
      end
  | remainingCount =>
      match lcbns_remaining table with
      | Some routine => outcome_map (fun r => (VInt r.1, r.2)) (routine handle d)
      | None => Undefined
      end
  | hasDiverged =>
      match has_diverged table with
      | Some routine => outcome_map (fun r => (VInt r.1, r.2)) (routine handle d)
      | None => Undefined
      end
  | registerThread _ _ => Returns (VVoid, d)
  | executedCount => Returns (VInt count, d)
  | getMode => Returns (VInt mode, d)
  end.

Fixpoint policy_run
    (table : schedulerImpl_t details) (handle : Z) (path : list ascii)
    (count mode : Z) (ops : list facade_op) (d : details)
  : outcome (list value * details) :=
  match ops with
  | [] => Returns ([], d)
  | op :: ops' =>
      match policy_call table handle path count mode op d with
      | Returns (v, d') =>
          outcome_map (fun r => (v :: r.1, r.2))
            (policy_run table handle path count mode ops' d')
      | Aborts => Aborts
      | Undefined => Undefined
      | Blocks => Blocks
      end
  end.
End Api.

(** The map that a sequence of registrations makes of the map [m]. *)
Definition registry_after (m : gmap Z Z) (regs : list (Z * Z)) : gmap Z Z :=
  foldl (λ m reg, <[cast_int reg.1 := reg.2]> m) m regs.

(** The calls that one facade operation makes outside [scheduler.c] when
    it returns, in order. *)
Definition outward_calls {hdr : Header}
    (path : list ascii) (mode : Z) (op : facade_op) : list event :=
  match op with
  | registerThread self role =>
      [call_uv_thread_self; call_map_insert (cast_int self) role]
  | registerCallback lcbn => [call_register_lcbn lcbn]
  | nextCallbackType => [call_next_lcbn_type]
  | yield point pointDetails => [call_thread_yield point pointDetails]
  | emitSchedule =>
      call_strcpy
        :: (if bool_decide (mode = SCHEDULER_MODE_REPLAY)
            then [call_strcat] else [])
        ++ [call_emit path]
  | remainingCount => [call_lcbns_remaining]
  | hasDiverged => [call_has_diverged]
  | executedCount | getMode => []
  end.

(** [scheduler_emit] from the point where [output_file] holds [path]:
    the string is handed to the routine [emit] of the policy, and when
    that returns, the function returns the address of [output_file]. *)
Definition hands_over {details : Type} {hdr : Header}
    (routine : list ascii -> Z -> details -> outcome details)
    (path : list ascii) (p : process details)
  : outcome (pointer * process details) :=
  outcome_map
    (fun d' =>
       (dangling,
        {| initialized := initialized p;
           scheduler_initialized := scheduler_initialized p;
           the_scheduler := the_scheduler p;
           policy := d';
           calls := calls p
                      ++ outward_calls path (scheduler.mode (the_scheduler p))
                           emitSchedule |}))
    (routine path (scheduler.implDetails (the_scheduler p)) (policy p)).

(** A context in which every facade operation reaches the code it hands
    its work to: it looks valid, [scheduler.tidToType] is not NULL, and
    the output path with its NUL fits [output_file]. *)
Definition facade_ready {details : Type} {hdr : Header}
    (p : process details) : bool :=
  looks_valid p
  && match scheduler.tidToType (the_scheduler p) with
     | Some _ => true
     | None => false
     end
  && match strlen (scheduler.schedule_file (the_scheduler p)) with
     | Some n =>
         (output_size n (scheduler.mode (the_scheduler p)) <=? 1024)%nat
     | None => false
     end.

(** The routines of the policy called directly, one for each operation
    of a run and in its order, with what the context [p] holds. *)
Definition policy_view {details : Type} {hdr : Header}
    (ops : list facade_op) (p : process details)
  : outcome (list value * details) :=
  policy_run (scheduler.impl (the_scheduler p))
    (scheduler.implDetails (the_scheduler p))
    (output_path (scheduler.schedule_file (the_scheduler p))
       (scheduler.mode (the_scheduler p)))
    (scheduler.n_executed (the_scheduler p))
    (scheduler.mode (the_scheduler p)) ops (policy p).

(** The registrations among the operations of a run, in order. *)
Fixpoint registrations (ops : list facade_op) : list (Z * Z) :=
  match ops with
  | [] => []
  | registerThread self role :: ops' => (self, role) :: registrations ops'
  | _ :: ops' => registrations ops'
  end.

(** The values that the [getMode] calls of a run returned, in order. *)
Fixpoint returned_modes (ops : list facade_op) (vs : list value) : list Z :=
  match ops, vs with
  | getMode :: ops', VInt z :: vs' => z :: returned_modes ops' vs'
  | _ :: ops', _ :: vs' => returned_modes ops' vs'
  | _, _ => []
  end.

(** The members of [scheduler] that [scheduler_init] assigns itself, the
    other two being written by the constructor it calls. *)
Definition own_members {details : Type} (s : scheduler.t details)
  : Z * Z * Z * list ascii * Z * Z * option (gmap Z Z) * reentrant_mutex_t :=
  (scheduler.magic s, scheduler.type s, scheduler.mode s,
   scheduler.schedule_file s, scheduler.args s, scheduler.n_executed s,
   scheduler.tidToType s, scheduler.mutex s).

(** The lock as [reentrant_mutex_init] leaves it, or held by [self]. *)
Definition free_or_held_by (self : Z) (m : reentrant_mutex_t) : Prop :=
  (owner m = None ∧ depth m = 0%nat) ∨
  (owner m = Some self ∧ (0 < depth m)%nat).

(** The lock held [d] times by [self]; free when [d] is zero. *)
Definition held (self : Z) (d : nat) : reentrant_mutex_t :=
  match d with
  | O => {| owner := None; depth := 0 |}
  | S _ => {| owner := Some self; depth := d |}
  end.

(** What the magic number stands for: a context that carries it has its
    registry. *)
Definition registry_built {details : Type} (p : process details) : Prop :=
  scheduler.magic (the_scheduler p) = SCHEDULER_MAGIC →
  is_Some (scheduler.tidToType (the_scheduler p)).

(** * Properties *)

(** Unfolding the monad down to case analyses on the state. *)
Ltac unfold_monad :=
  unfold libc in *;
  unfold mbind, M_bind, mret, M_ret, assert, stop, lift, load, store,
    load_initialized, load_scheduler_initialized, on_policy, with_policy,
    call in *.

Ltac run := unfold_monad; cbn in *.

(** ** C strings *)

Section Strings.
Lemma c_str_no_NUL (m : list ascii) :
  Forall (λ c, Ascii.eqb c NUL = false) (c_str m).
Proof.
  induction m as [|c m IH]; cbn; [constructor|].
  destruct (Ascii.eqb c NUL) eqn:Hc; by constructor.
Qed.

Lemma strlen_no_NUL (l : list ascii) :
  Forall (λ c, Ascii.eqb c NUL = false) l → strlen l = None.
Proof.
  induction 1 as [|c l Hc _ IH]; cbn; [done|]. by rewrite Hc, IH.
Qed.

Lemma strlen_app_NUL (l r : list ascii) :
  Forall (λ c, Ascii.eqb c NUL = false) l →
  strlen (l ++ NUL :: r) = Some (length l).
Proof.
  induction 1 as [|c l Hc _ IH]; cbn; [done|]. by rewrite Hc, IH.
Qed.

Lemma strlen_lt (l : list ascii) (n : nat) :
  strlen l = Some n → (n < length l)%nat.
Proof.
  revert n. induction l as [|c l IH]; intros n; cbn; [done|].
  destruct (Ascii.eqb c NUL); [intros [= <-]; lia|].
  destruct (strlen l) as [k|]; [|done]. intros [= <-].
  specialize (IH k eq_refl). lia.
Qed.

Lemma length_strncpy (src : list ascii) (n : nat) :
  length (strncpy src n) = n.
Proof.
  unfold strncpy. rewrite length_app, length_take, length_replicate. lia.
Qed.

(** A string of [n] characters or more fills the buffer: no NUL is
    stored. *)
Lemma strncpy_long (src : list ascii) (n : nat) :
  (n ≤ length (c_str src))%nat →
  strncpy src n = take n (c_str src) ∧ strlen (strncpy src n) = None.
Proof.
  intros Hn. unfold strncpy.
  replace (n - length (c_str src))%nat with 0%nat by lia.
  cbn. rewrite app_nil_r. split; [done|].
  apply strlen_no_NUL, Forall_take, c_str_no_NUL.
Qed.

(** A shorter string is stored whole, and terminated. *)
Lemma strncpy_short (src : list ascii) (n : nat) :
  (length (c_str src) < n)%nat →
  strlen (strncpy src n) = Some (length (c_str src)) ∧
  take (length (c_str src)) (strncpy src n) = c_str src.
Proof.
  intros Hn. unfold strncpy. rewrite take_ge by lia.
  destruct (n - length (c_str src))%nat as [|k] eqn:Hk; [lia|].
  cbn [replicate]. split.
  - apply strlen_app_NUL, c_str_no_NUL.
  - by rewrite take_app_length.
Qed.

Lemma c_str_strlen (buf : list ascii) (n : nat) :
  strlen buf = Some n → c_str buf = take n buf.
Proof.
  revert n. induction buf as [|c buf IH]; intros n; cbn; [done|].
  destruct (Ascii.eqb c NUL); [by intros [= <-]|].
  destruct (strlen buf) as [k|]; [|done]. intros [= <-].
  cbn. by rewrite (IH k).
Qed.
End Strings.

Section Init.
Context {details : Type} {hdr : Header} {bld : Build}
        {pol : Policies details}.
Implicit Types p : process details.

Lemma app_calls_assoc (l : list event) (a b c d : event) :
  (((l ++ [a]) ++ [b]) ++ [c]) ++ [d] = l ++ [a; b; c; d].
Proof. by rewrite <- !app_assoc. Qed.

(** A constructor that returns leaves the state [initialised]; one that
    does not return ends the call the same way. *)
Lemma construct_spec e init p :
  construct e init p =
    match init with
    | Returns (table, handle, d) =>
        Returns (tt,
          {| initialized := initialized p;
             scheduler_initialized := scheduler_initialized p;
             the_scheduler :=
               scheduler.set_implDetails handle
                 (scheduler.set_impl table (the_scheduler p));
             policy := d;
             calls := calls p ++ [e] |})
    | Aborts => Aborts
    | Undefined => Undefined
    | Blocks => Blocks
    end.
Proof.
  unfold construct. destruct init as [[[table handle] d]| | |]; reflexivity.
Qed.

(** Every path through the [switch] that starts at [default] aborts. *)
Lemma at_default_aborts p : at_default p = Aborts (A := unit * process details).
Proof. reflexivity. Qed.

(** A type other than [SCHEDULER_TYPE_CBTREE] or a set [initialized]
    make [scheduler_init] abort. *)
Lemma scheduler_init_aborts type mode file args p :
  initialized p ≠ 0 ∨ type ≠ SCHEDULER_TYPE_CBTREE →
  scheduler_init type mode file args p = Aborts.
Proof.
  intros Hor. unfold scheduler_init, map_create. run.
  destruct (initialized p =? 0) eqn:Hi; [|reflexivity].
  apply Z.eqb_eq in Hi. destruct Hor as [Hor|Hor]; [done|].
  cbn. rewrite bool_decide_eq_false_2 by done. reflexivity.
Qed.

Lemma at_SCHEDULER_TYPE_CBTREE_spec mode args p :
  at_SCHEDULER_TYPE_CBTREE mode args p =
    match reached_from_CBTREE mode args with
    | Some (e, init) => construct e init p
    | None => Aborts
    end.
Proof.
  unfold at_SCHEDULER_TYPE_CBTREE, at_SCHEDULER_TYPE_FUZZER_TIMER,
    at_SCHEDULER_TYPE_FUZZER_THREAD_ORDER, reached_from_CBTREE.
  destruct ENABLE_SCHEDULER_CBTREE; [reflexivity|].
  destruct ENABLE_SCHEDULER_FUZZER_TIMER; [reflexivity|].
  destruct ENABLE_SCHEDULER_FUZZER_THREAD_ORDER; reflexivity.
Qed.

(** [scheduler_init] on the one path that can return. *)
Lemma scheduler_init_CBTREE mode file args p :
  initialized p = 0 →
  scheduler_init SCHEDULER_TYPE_CBTREE mode file args p =
    match reached_from_CBTREE mode args with
    | Some (e, Returns (table, handle, d)) =>
        Returns (tt,
          initialised SCHEDULER_TYPE_CBTREE mode file args e table handle d p)
    | Some (_, Aborts) => Aborts
    | Some (_, Undefined) => Undefined
    | Some (_, Blocks) => Blocks
    | None => Aborts
    end.
Proof.
  intros Hi. unfold scheduler_init, map_create. run. rewrite Hi. cbn.
  rewrite bool_decide_eq_true_2 by done.
  rewrite at_SCHEDULER_TYPE_CBTREE_spec.
  destruct (reached_from_CBTREE mode args) as [[e init]|]; [|reflexivity].
  rewrite construct_spec.
  destruct init as [[[table handle] d]| | |]; try reflexivity.
  unfold initialised. cbn. by rewrite app_calls_assoc.
Qed.

(** When [scheduler_init] returns, [initialized] was clear, the type was
    [SCHEDULER_TYPE_CBTREE], and the state is [initialised] by the
    constructor reached. *)
Lemma scheduler_init_returns type mode file args p u p' :
  scheduler_init type mode file args p = Returns (u, p') →
  initialized p = 0 ∧ type = SCHEDULER_TYPE_CBTREE ∧
  ∃ e table handle d,
    reached_from_CBTREE mode args = Some (e, Returns (table, handle, d)) ∧
    p' = initialised type mode file args e table handle d p.
Proof.
  intros Hr.
  destruct (decide (initialized p = 0)) as [Hi|Hi];
    [|rewrite scheduler_init_aborts in Hr by auto; discriminate].
  destruct (decide (type = SCHEDULER_TYPE_CBTREE)) as [->|Ht];
    [|rewrite scheduler_init_aborts in Hr by auto; discriminate].
  rewrite scheduler_init_CBTREE in Hr by done.
  destruct (reached_from_CBTREE mode args) as [[e [[[table handle] d]| | |]]|];
    try discriminate.
  injection Hr as <-. eauto 10.
Qed.
End Init.

Section Facade.
Context {details : Type} {hdr : Header} {bld : Build}
        {pol : Policies details}.
Implicit Types p : process details.

Lemma scheduler__looks_valid_eq p :
  scheduler__looks_valid p = Returns (looks_valid p, p).
Proof. reflexivity. Qed.

(** A facade operation starts with [assert(scheduler__looks_valid())]. *)
Lemma facade_call_invalid op p :
  looks_valid p = false → facade_call op p = Aborts.
Proof.
  intros Hv.
  destruct op; unfold facade_call, scheduler_register_thread,
    scheduler_register_lcbn, scheduler_next_lcbn_type,
    scheduler_thread_yield, scheduler_emit, scheduler_lcbns_remaining,
    scheduler_schedule_has_diverged, scheduler_n_executed,
    scheduler_get_scheduler_mode;
    unfold mbind at 1, M_bind; unfold mbind at 1, M_bind;
    rewrite scheduler__looks_valid_eq, Hv; reflexivity.
Qed.

(** A call through [scheduler.impl] that returns: the member was not
    null, the routine returned, and the policy's memory and the record
    of calls changed, nothing else. *)
Lemma through_impl_returns {A} e
    (member : schedulerImpl_t details →
              option (Z → details → outcome (A * details))) p a p' :
  through_impl e member p = Returns (a, p') →
  ∃ routine d',
    member (scheduler.impl (the_scheduler p)) = Some routine ∧
    routine (scheduler.implDetails (the_scheduler p)) (policy p)
      = Returns (a, d') ∧
    p' = {| initialized := initialized p;
            scheduler_initialized := scheduler_initialized p;
            the_scheduler := the_scheduler p;
            policy := d';
            calls := calls p ++ [e] |}.
Proof.
  unfold through_impl. unfold_monad.
  destruct (member (scheduler.impl (the_scheduler p))) as [routine|];
    [|discriminate].
  cbn. destruct (routine _ _) as [[a0 d0]| | |] eqn:Hf; try discriminate.
  cbn. intros [= <- <-]. by exists routine, d0.
Qed.

(** A routine that returns [void], called through its member. *)
Lemma void_member_returns
    {B} (member : option B) (apply : B → Z → details → outcome details)
    (routine : Z → details → outcome (unit * details))
    (handle : Z) (d d' : details) u :
  (λ r h st, returning_void (apply r h st)) <$> member = Some routine →
  routine handle d = Returns (u, d') →
  ∃ r, member = Some r ∧ apply r handle d = Returns d'.
Proof.
  destruct member as [r|]; [|discriminate]. cbn. intros [= <-].
  unfold returning_void.
  destruct (apply r handle d) as [d0| | |] eqn:Hr; try discriminate.
  cbn. destruct u. intros [= <-]. by exists r.
Qed.

Lemma guarded_eq {A} (rest : M details A) p :
  (v ← scheduler__looks_valid; assert v;; rest) p =
    if looks_valid p then rest p else Aborts.
Proof.
  unfold mbind, M_bind. rewrite scheduler__looks_valid_eq.
  destruct (looks_valid p); reflexivity.
Qed.

(** What [scheduler_emit] has done when it returns. *)
Lemma scheduler_emit_returns p out p' :
  scheduler_emit p = Returns (out, p') →
  looks_valid p = true ∧
  ∃ n routine d',
    strlen (scheduler.schedule_file (the_scheduler p)) = Some n ∧
    emit (scheduler.impl (the_scheduler p)) = Some routine ∧
    let replay :=
      bool_decide (scheduler.mode (the_scheduler p) = SCHEDULER_MODE_REPLAY) in
    let path :=
      take n (scheduler.schedule_file (the_scheduler p))
        ++ (if replay then list_ascii_of_string "-replay" else []) in
    (n + (if replay then 8 else 1) ≤ 1024)%nat ∧
    routine path (scheduler.implDetails (the_scheduler p)) (policy p)
      = Returns d' ∧
    p' = {| initialized := initialized p;
            scheduler_initialized := scheduler_initialized p;
            the_scheduler := the_scheduler p;
            policy := d';
            calls := calls p
                       ++ call_strcpy
                            :: (if replay then [call_strcat] else [])
                            ++ [call_emit path] |}.
Proof.
  unfold scheduler_emit. rewrite guarded_eq.
  destruct (looks_valid p); [|discriminate]. intros Hr. split; [done|].
  revert Hr. unfold libc, strcpy, strcat.
  unfold mbind at 1, M_bind. unfold load at 1.
  unfold mbind at 1, M_bind. unfold mbind at 1, M_bind. unfold call at 1.
  destruct (strlen (scheduler.schedule_file (the_scheduler p))) as [n|] eqn:Hn;
    [|discriminate].
  destruct (n + 1 <=? 1024)%nat eqn:Hle; [|discriminate].
  apply Nat.leb_le in Hle.
  assert (length (take n (scheduler.schedule_file (the_scheduler p))) = n)
    as Hlen.
  { apply strlen_lt in Hn. rewrite length_take. lia. }
  cbn [lift]. unfold mbind at 1, M_bind. unfold load at 1. cbn [the_scheduler].
  unfold mbind at 1, M_bind. cbn zeta.
  case_bool_decide as Hm.
  - unfold mbind at 1, M_bind. unfold call at 1. rewrite Hlen.
    destruct (n + length (list_ascii_of_string "-replay") + 1 <=? 1024)%nat
      eqn:Hcat; [|discriminate].
    apply Nat.leb_le in Hcat. cbn in Hcat.
    cbn [lift]. unfold mbind at 1, M_bind.
    match goal with
    | |- context [through_impl ?e ?m ?q] =>
        destruct (through_impl e m q) as [[[] p1]| | |] eqn:Ht;
          try discriminate
    end.
    apply through_impl_returns in Ht as (r & d' & Hmem & Hr & ->).
    cbn in Hmem, Hr.
    destruct (void_member_returns _
                (λ routine d st, routine _ d st) _ _ _ _ _ Hmem Hr)
      as (routine & Hroutine & Hret).
    intros [= <- <-]. exists n, routine, d'. cbn.
    split_and!; [done|done|lia|done|]. by rewrite <- !app_assoc.
  - cbn [mret M_ret]. unfold mbind at 1, M_bind.
    match goal with
    | |- context [through_impl ?e ?m ?q] =>
        destruct (through_impl e m q) as [[[] p1]| | |] eqn:Ht;
          try discriminate
    end.
    apply through_impl_returns in Ht as (r & d' & Hmem & Hr & ->).
    cbn in Hmem, Hr.
    destruct (void_member_returns _
                (λ routine d st, routine _ d st) _ _ _ _ _ Hmem Hr)
      as (routine & Hroutine & Hret).
    intros [= <- <-]. exists n, routine, d'. cbn.
    rewrite !app_nil_r.
    split_and!; [done|done|lia|done|]. by rewrite <- !app_assoc.
Qed.

Lemma set_tidToType_id (s : scheduler.t details) :
  scheduler.set_tidToType (scheduler.tidToType s) s = s.
Proof. by destruct s. Qed.

(** What [scheduler_register_thread] has done when it returns. *)
Lemma scheduler_register_thread_returns self role p u p' :
  scheduler_register_thread self role p = Returns (u, p') →
  looks_valid p = true ∧
  ∃ m,
    scheduler.tidToType (the_scheduler p) = Some m ∧
    p' = {| initialized := initialized p;
            scheduler_initialized := scheduler_initialized p;
            the_scheduler :=
              scheduler.set_tidToType (Some (<[cast_int self := role]> m))
                (the_scheduler p);
            policy := policy p;
            calls := calls p ++ [call_uv_thread_self;
                                 call_map_insert (cast_int self) role] |}.
Proof.
  unfold scheduler_register_thread. rewrite guarded_eq.
  destruct (looks_valid p); [|discriminate]. intros Hr. split; [done|].
  revert Hr. unfold map_insert. run.
  destruct (scheduler.tidToType (the_scheduler p)) as [m|]; [|discriminate].
  cbn. destruct u. intros [= <-]. exists m. by rewrite <- !app_assoc.
Qed.

(** What a facade operation that forwards to the policy has done when it
    returns. *)
Lemma forwarded_returns {A} e
    (member : schedulerImpl_t details →
              option (Z → details → outcome (A * details))) p a p' :
  (v ← scheduler__looks_valid; assert v;; through_impl e member) p
    = Returns (a, p') →
  looks_valid p = true ∧
  initialized p' = initialized p ∧
  scheduler_initialized p' = scheduler_initialized p ∧
  the_scheduler p' = the_scheduler p ∧
  calls p' = calls p ++ [e].
Proof.
  rewrite guarded_eq. destruct (looks_valid p); [|discriminate].
  intros (routine & d' & _ & _ & ->)%through_impl_returns. done.
Qed.

(** The frame of a facade operation: it leaves the two flags and every
    member of [scheduler] but [tidToType] as they were, [tidToType] too
    unless it is [registerThread], and it makes no call to the lock. *)
Lemma facade_call_returns op p v p' :
  facade_call op p = Returns (v, p') →
  looks_valid p = true ∧
  initialized p' = initialized p ∧
  scheduler_initialized p' = scheduler_initialized p ∧
  the_scheduler p' =
    scheduler.set_tidToType (scheduler.tidToType (the_scheduler p'))
      (the_scheduler p) ∧
  (is_registerThread op = false → the_scheduler p' = the_scheduler p) ∧
  (∃ tr, calls p' = calls p ++ tr ∧ Forall (λ e, is_lock_call e = false) tr) ∧
  (op = executedCount → v = VInt (scheduler.n_executed (the_scheduler p))) ∧
  (op = getMode → v = VInt (scheduler.mode (the_scheduler p))).
Proof.
  intros Hr.
  assert (∀ tr, calls p' = calls p ++ tr →
            the_scheduler p' = the_scheduler p →
            forallb (λ e, negb (is_lock_call e)) tr = true →
            the_scheduler p' =
              scheduler.set_tidToType
                (scheduler.tidToType (the_scheduler p')) (the_scheduler p) ∧
            (is_registerThread op = false →
             the_scheduler p' = the_scheduler p) ∧
            (∃ tr, calls p' = calls p ++ tr ∧
                   Forall (λ e, is_lock_call e = false) tr)) as Hsame.
  { intros tr Hc Hs He. rewrite Hs at 1. rewrite Hs, set_tidToType_id.
    split_and!; [done..|]. exists tr. split; [done|].
    apply Forall_forall. intros e Hin.
    rewrite forallb_forall in He. apply negb_true_iff, He.
    by apply list_elem_of_In. }
  destruct op; unfold facade_call in Hr; unfold mbind at 1, M_bind in Hr.
  - destruct (scheduler_register_thread _ _ p) as [[u p1]| | |] eqn:Hc;
      try discriminate.
    injection Hr as <- <-.
    apply scheduler_register_thread_returns in Hc as (Hv & m & Hm & ->).
    cbn. split_and!; try done.
    eexists. split; [done|]. by repeat constructor.
  - destruct (scheduler_register_lcbn _ p) as [[u p1]| | |] eqn:Hc;
      try discriminate.
    injection Hr as <- <-.
    apply forwarded_returns in Hc as (Hv & Hi & Hsi & Hs & Hcalls).
    edestruct (Hsame _ Hcalls Hs) as (? & ? & ?); [reflexivity|].
    split_and!; done.
  - destruct (scheduler_next_lcbn_type p) as [[u p1]| | |] eqn:Hc;
      try discriminate.
    injection Hr as <- <-.
    apply forwarded_returns in Hc as (Hv & Hi & Hsi & Hs & Hcalls).
    edestruct (Hsame _ Hcalls Hs) as (? & ? & ?); [reflexivity|].
    split_and!; done.
  - destruct (scheduler_thread_yield _ _ p) as [[u p1]| | |] eqn:Hc;
      try discriminate.
    injection Hr as <- <-.
    apply forwarded_returns in Hc as (Hv & Hi & Hsi & Hs & Hcalls).
    edestruct (Hsame _ Hcalls Hs) as (? & ? & ?); [reflexivity|].
    split_and!; done.
  - destruct (scheduler_emit p) as [[u p1]| | |] eqn:Hc; try discriminate.
    injection Hr as <- <-.
    apply scheduler_emit_returns in Hc
      as (Hv & n & routine & d' & _ & _ & _ & _ & ->).
    cbn in Hsame.
    edestruct (Hsame _ eq_refl eq_refl) as (? & ? & ?);
      [by case_bool_decide|].
    split_and!; done.
  - destruct (scheduler_lcbns_remaining p) as [[u p1]| | |] eqn:Hc;
      try discriminate.
    injection Hr as <- <-.
    apply forwarded_returns in Hc as (Hv & Hi & Hsi & Hs & Hcalls).
    edestruct (Hsame _ Hcalls Hs) as (? & ? & ?); [reflexivity|].
    split_and!; done.
  - destruct (scheduler_schedule_has_diverged p) as [[u p1]| | |] eqn:Hc;
      try discriminate.
    injection Hr as <- <-.
    apply forwarded_returns in Hc as (Hv & Hi & Hsi & Hs & Hcalls).
    edestruct (Hsame _ Hcalls Hs) as (? & ? & ?); [reflexivity|].
    split_and!; done.
  - unfold scheduler_n_executed in Hr. rewrite guarded_eq in Hr.
    destruct (looks_valid p); [|discriminate].
    injection Hr as <- <-.
    rewrite set_tidToType_id. split_and!; try done.
    exists []. by rewrite app_nil_r.
  - unfold scheduler_get_scheduler_mode in Hr. rewrite guarded_eq in Hr.
    destruct (looks_valid p); [|discriminate].
    injection Hr as <- <-.
    rewrite set_tidToType_id. split_and!; try done.
    exists []. by rewrite app_nil_r.
Qed.

Lemma facade_run_cons op ops p vs p' :
  facade_run (op :: ops) p = Returns (vs, p') →
  ∃ v p1 vs',
    facade_call op p = Returns (v, p1) ∧
    facade_run ops p1 = Returns (vs', p') ∧
    vs = v :: vs'.
Proof.
  cbn [facade_run]. unfold mbind at 1, M_bind.
  destruct (facade_call op p) as [[v p1]| | |]; try discriminate.
  unfold mbind at 1, M_bind.
  destruct (facade_run ops p1) as [[vs' p2]| | |] eqn:Hrun; try discriminate.
  intros [= <- <-]. by exists v, p1, vs'.
Qed.

(** The frame of a run of facade operations. *)
Lemma facade_run_returns ops : ∀ p vs p',
  facade_run ops p = Returns (vs, p') →
  initialized p' = initialized p ∧
  scheduler_initialized p' = scheduler_initialized p ∧
  the_scheduler p' =
    scheduler.set_tidToType (scheduler.tidToType (the_scheduler p'))
      (the_scheduler p) ∧
  (forallb (λ op, negb (is_registerThread op)) ops = true →
   the_scheduler p' = the_scheduler p) ∧
  (∃ tr, calls p' = calls p ++ tr ∧ Forall (λ e, is_lock_call e = false) tr) ∧
  Forall (λ z, z = scheduler.n_executed (the_scheduler p))
    (executed_counts ops vs).
Proof.
  induction ops as [|op ops IH]; intros p vs p' Hr.
  - injection Hr as <- <-. rewrite set_tidToType_id.
    split_and!; try done. exists []. by rewrite app_nil_r.
  - apply facade_run_cons in Hr as (v & p1 & vs' & Hc & Hr & ->).
    apply facade_call_returns in Hc
      as (_ & Hi & Hsi & Hs & Hreg & (tr1 & Hc1 & Hl1) & Hn & _).
    apply IH in Hr as (Hi' & Hsi' & Hs' & Hreg' & (tr2 & Hc2 & Hl2) & Hn').
    assert (scheduler.n_executed (the_scheduler p1)
            = scheduler.n_executed (the_scheduler p)) as Hcount
      by (by rewrite Hs).
    split_and!.
    + congruence.
    + congruence.
    + rewrite Hs', Hs. by destruct (the_scheduler p).
    + cbn [forallb]. intros [Hop Hops]%andb_true_iff.
      rewrite Hreg' by done. apply Hreg. by destruct (is_registerThread op).
    + exists (tr1 ++ tr2). split.
      * by rewrite Hc2, Hc1, app_assoc.
      * by apply Forall_app.
    + rewrite Hcount in Hn'.
      destruct op; cbn [executed_counts]; destruct v; try done.
      constructor; [|done]. specialize (Hn eq_refl). congruence.
Qed.
End Facade.

(** ** Initialisation *)

(** C1, which the code does not meet.  [scheduler_init] never assigns
    [scheduler_initialized]: when it returns from a process in which the
    flag is still clear, [scheduler__looks_valid] is false and each of the
    nine facade operations fails its opening assertion. *)
Theorem scheduler_init_never_validates
    {details : Type} {hdr : Header} {bld : Build} {pol : Policies details}
    (type mode : Z) (file : list ascii) (args : Z)
    (p p' : process details) (op : facade_op) :
  scheduler_initialized p = 0 →
  scheduler_init type mode file args p = Returns (tt, p') →
  looks_valid p' = false ∧ facade_call op p' = Aborts.
Proof.
  intros Hflag Hinit.
  apply scheduler_init_returns in Hinit
    as (_ & _ & e & table & handle & d & _ & ->).
  assert (looks_valid (initialised type mode file args e table handle d p)
          = false) as Hv.
  { unfold looks_valid. cbn. by rewrite Hflag. }
  split; [done|]. by apply facade_call_invalid.
Qed.

Lemma scheduler_init_never_validates_witness :
  looks_valid Sample.booted = false ∧
  facade_call (hdr := Sample.header) executedCount Sample.booted = Aborts.
Proof.
  apply (scheduler_init_never_validates
           (hdr := Sample.header) (bld := Sample.build)
           (pol := Sample.policies)
           0 0 (list_ascii_of_string Sample.run_sched) 0
           Sample.boot Sample.booted executedCount);
    vm_compute; reflexivity.
Defined.

(** C2, which the code does not meet.  In the [switch] of
    [scheduler_init] only [SCHEDULER_TYPE_CBTREE] is a [case]: any other
    policy kind, the two fuzzers included and whatever is compiled in,
    is sent to [default] and aborts without a constructor being called. *)
Theorem scheduler_init_other_kind_aborts
    {details : Type} {hdr : Header} {bld : Build} {pol : Policies details}
    (type mode : Z) (file : list ascii) (args : Z) (p : process details) :
  type ≠ SCHEDULER_TYPE_CBTREE →
  scheduler_init type mode file args p = Aborts.
Proof. intros Ht. apply scheduler_init_aborts. by right. Qed.

Lemma scheduler_init_other_kind_aborts_witness :
  ENABLE_SCHEDULER_FUZZER_TIMER (Build := Sample.build) = true ∧
  Sample.init Sample.SCHEDULER_TYPE_FUZZER_TIMER Sample.SCHEDULER_MODE_RECORD
    Sample.run_sched 0 Sample.boot = Aborts.
Proof.
  split; [reflexivity|].
  apply (scheduler_init_other_kind_aborts
           (hdr := Sample.header) (bld := Sample.build)
           (pol := Sample.policies)).
  vm_compute. discriminate.
Defined.

(** With its own constructor compiled out, [SCHEDULER_TYPE_CBTREE] falls
    through to the constructor of the next policy compiled in. *)
Lemma scheduler_init_CBTREE_falls_through
    {details : Type} {hdr : Header} {bld : Build} {pol : Policies details}
    (mode : Z) (file : list ascii) (args : Z) (p : process details)
    table handle d :
  initialized p = 0 →
  ENABLE_SCHEDULER_CBTREE = false →
  ENABLE_SCHEDULER_FUZZER_TIMER = true →
  scheduler_fuzzer_timer_init mode args = Returns (table, handle, d) →
  scheduler_init SCHEDULER_TYPE_CBTREE mode file args p =
    Returns (tt, initialised SCHEDULER_TYPE_CBTREE mode file args
                   (call_fuzzer_timer_init mode args) table handle d p).
Proof.
  intros Hi Hcb Htm Hctor. rewrite scheduler_init_CBTREE by done.
  unfold reached_from_CBTREE. by rewrite Hcb, Htm, Hctor.
Qed.

(** With its constructor compiled in, [SCHEDULER_TYPE_CBTREE] is built by
    [scheduler_cbTree_init]. *)
Lemma scheduler_init_CBTREE_constructs
    {details : Type} {hdr : Header} {bld : Build} {pol : Policies details}
    (mode : Z) (file : list ascii) (args : Z) (p : process details)
    table handle d :
  initialized p = 0 →
  ENABLE_SCHEDULER_CBTREE = true →
  scheduler_cbTree_init mode args = Returns (table, handle, d) →
  scheduler_init SCHEDULER_TYPE_CBTREE mode file args p =
    Returns (tt, initialised SCHEDULER_TYPE_CBTREE mode file args
                   (call_cbTree_init mode args) table handle d p).
Proof.
  intros Hi Hcb Hctor. rewrite scheduler_init_CBTREE by done.
  unfold reached_from_CBTREE. by rewrite Hcb, Hctor.
Qed.

(** C4, which the code does not meet.  The opening assertion of
    [scheduler_init] reads [initialized], which the function never sets:
    a call that follows one that returned passes the assertion again and
    builds the context anew, with a new path, an empty registry and the
    counter at zero. *)
Theorem scheduler_init_twice
    {details : Type} {hdr : Header} {bld : Build} {pol : Policies details}
    (type mode : Z) (file file' : list ascii) (args : Z)
    (p p1 : process details) :
  scheduler_init type mode file args p = Returns (tt, p1) →
  ∃ p2,
    scheduler_init type mode file' args p1 = Returns (tt, p2) ∧
    scheduler.schedule_file (the_scheduler p2) = strncpy file' 1024 ∧
    scheduler.tidToType (the_scheduler p2) = Some ∅ ∧
    scheduler.n_executed (the_scheduler p2) = 0.
Proof.
  intros Hinit.
  apply scheduler_init_returns in Hinit
    as (Hi & -> & e & table & handle & d & Hreach & ->).
  eexists. split.
  - rewrite scheduler_init_CBTREE by done. by rewrite Hreach.
  - done.
Qed.

Lemma scheduler_init_twice_witness :
  ∃ p2,
    Sample.init 0 0 "other.sched" 0 Sample.booted = Returns (tt, p2) ∧
    scheduler.schedule_file (the_scheduler p2)
      = strncpy (list_ascii_of_string "other.sched") 1024 ∧
    scheduler.tidToType (the_scheduler p2) = Some ∅ ∧
    scheduler.n_executed (the_scheduler p2) = 0.
Proof.
  apply (scheduler_init_twice
           (hdr := Sample.header) (bld := Sample.build)
           (pol := Sample.policies)
           0 0 (list_ascii_of_string Sample.run_sched)
           (list_ascii_of_string "other.sched") 0
           Sample.boot Sample.booted).
  vm_compute; reflexivity.
Defined.

(** C10.  When [scheduler_init] returns, the 1024 bytes of
    [scheduler.schedule_file] hold the first 1024 characters of the path
    and NULs after a shorter one; the length of the path never makes the
    call fail; and a path of 1024 characters or more leaves the buffer
    without any NUL. *)
Theorem scheduler_init_truncates_path
    {details : Type} {hdr : Header} {bld : Build} {pol : Policies details}
    (type mode : Z) (file : list ascii) (args : Z) (p p' : process details) :
  scheduler_init type mode file args p = Returns (tt, p') →
  let buf := scheduler.schedule_file (the_scheduler p') in
  length buf = 1024%nat ∧
  buf = take 1024 (c_str file)
          ++ replicate (1024 - length (c_str file)) NUL ∧
  (∀ longer : list ascii,
     returned (scheduler_init type mode longer args p) = true) ∧
  ((1024 ≤ length (c_str file))%nat →
   buf = take 1024 (c_str file) ∧ strlen buf = None) ∧
  ((length (c_str file) < 1024)%nat →
   strlen buf = Some (length (c_str file))).
Proof.
  intros Hinit.
  apply scheduler_init_returns in Hinit
    as (Hi & -> & e & table & handle & d & Hreach & ->).
  cbn. split_and!.
  - apply length_strncpy.
  - done.
  - intros longer. rewrite scheduler_init_CBTREE by done. by rewrite Hreach.
  - apply strncpy_long.
  - apply strncpy_short.
Qed.

Lemma scheduler_init_truncates_path_witness :
  let buf :=
    scheduler.schedule_file
      (the_scheduler
         (Sample.state_after
            (scheduler_init (hdr := Sample.header) (bld := Sample.build)
               (pol := Sample.policies) 0 0 (Sample.long_path 1030) 0)
            Sample.boot)) in
  length buf = 1024%nat ∧ strlen buf = None.
Proof.
  assert (scheduler_init (hdr := Sample.header) (bld := Sample.build)
            (pol := Sample.policies) 0 0 (Sample.long_path 1030) 0 Sample.boot
          = Returns (tt,
              Sample.state_after
                (scheduler_init (hdr := Sample.header) (bld := Sample.build)
                   (pol := Sample.policies) 0 0 (Sample.long_path 1030) 0)
                Sample.boot)) as Hinit
    by (vm_compute; reflexivity).
  destruct (scheduler_init_truncates_path _ _ _ _ _ _ Hinit)
    as (Hlen & _ & _ & Hlong & _).
  split; [exact Hlen|].
  apply Hlong. vm_compute. lia.
Defined.

(** ** Display names *)

(** The bounds of every to-string function are those of the mode
    enumeration, upper bound excluded: a function accepts
    [SCHEDULER_MODE_MAX - SCHEDULER_MODE_MIN] values and aborts on the
    rest. *)
Lemma scheduler_type_to_string_aborts {hdr : Header} (type : Z) :
  scheduler_type_to_string type = Aborts ↔
  ¬ (SCHEDULER_MODE_MIN ≤ type < SCHEDULER_MODE_MAX).
Proof.
  unfold scheduler_type_to_string, table_read.
  destruct (SCHEDULER_MODE_MIN <=? type) eqn:Hlo;
    destruct (type <? SCHEDULER_MODE_MAX) eqn:Hhi; cbn;
    try (split; [lia|done]).
  split; [|lia]. destruct (0 <=? _); [|done]. by destruct (_ !! _).
Qed.

(** Three policy kinds are accepted only if the mode enumeration spans
    three values. *)
Lemma scheduler_type_to_string_three_kinds {hdr : Header} (a b c : Z) :
  a ≠ b → a ≠ c → b ≠ c →
  scheduler_type_to_string a ≠ Aborts →
  scheduler_type_to_string b ≠ Aborts →
  scheduler_type_to_string c ≠ Aborts →
  3 ≤ SCHEDULER_MODE_MAX - SCHEDULER_MODE_MIN.
Proof.
  rewrite !scheduler_type_to_string_aborts. lia.
Qed.

(** Whatever the header and whatever [type] denotes, no two schedule
    points are given distinct names. *)
Lemma schedule_point_names_not_distinct
    {hdr : Header} (type point point' : Z) :
  ¬ ∃ name name' : string,
      schedule_point_to_string type point = Returns (Some name) ∧
      schedule_point_to_string type point' = Returns (Some name') ∧
      name ≠ name'.
Proof.
  intros (name & name' & Hp & Hp' & Hne).
  unfold schedule_point_to_string in *. congruence.
Qed.

(** C5, which the code does not meet.  [schedule_point_to_string] reads
    [type] where it means its parameter [point]: whatever the header and
    whatever [type] denotes, any two schedule points are given the same
    outcome, the same name when there is one. *)
Theorem schedule_point_to_string_ignores_point
    {hdr : Header} (type point point' : Z) :
  schedule_point_to_string type point = schedule_point_to_string type point'.
Proof. reflexivity. Qed.

(** With the header of [Sample]: the first and the last schedule point
    share a name, and the third policy kind is turned down. *)
Example schedule_point_to_string_sample :
  schedule_point_to_string (hdr := Sample.header) 0 0
    = Returns (Some "BEFORE_EXEC_CB"%string) ∧
  schedule_point_to_string (hdr := Sample.header) 0 5
    = Returns (Some "BEFORE_EXEC_CB"%string) ∧
  scheduler_type_to_string (hdr := Sample.header)
    Sample.SCHEDULER_TYPE_FUZZER_THREAD_ORDER = Aborts.
Proof. split_and!; reflexivity. Qed.

(** ** The registry of thread roles *)

Lemma cast_int_wraps (x : Z) : cast_int (x + 2 ^ 32) = cast_int x.
Proof.
  unfold cast_int. f_equal.
  replace (x + 2 ^ 32 + 2 ^ 31) with (x + 2 ^ 31 + 1 * 2 ^ 32) by lia.
  by rewrite Z_mod_plus_full.
Qed.

(** A lookup under a key that the map binds returns the value bound. *)
Lemma scheduler__get_thread_type_found
    {details : Type} (tid role : Z) (m : gmap Z Z) (p : process details) :
  scheduler.tidToType (the_scheduler p) = Some m →
  m !! cast_int tid = Some role →
  scheduler__get_thread_type tid p =
    Returns (role,
      {| initialized := initialized p;
         scheduler_initialized := scheduler_initialized p;
         the_scheduler := the_scheduler p;
         policy := policy p;
         calls := calls p ++ [call_map_lookup (cast_int tid)] |}).
Proof.
  intros Hm Hk. unfold scheduler__get_thread_type, map_lookup. run.
  rewrite Hm. cbn. by rewrite Hk.
Qed.

(** A lookup under a key that the map does not bind aborts. *)
Lemma scheduler__get_thread_type_absent
    {details : Type} (tid : Z) (m : gmap Z Z) (p : process details) :
  scheduler.tidToType (the_scheduler p) = Some m →
  m !! cast_int tid = None →
  scheduler__get_thread_type tid p = Aborts.
Proof.
  intros Hm Hk. unfold scheduler__get_thread_type, map_lookup. run.
  rewrite Hm. cbn. by rewrite Hk.
Qed.

(** The thread that registered is given the role it registered. *)
Lemma scheduler__get_thread_type_registered
    {details : Type} (self role : Z) (p p1 : process details) :
  scheduler_register_thread self role p = Returns (tt, p1) →
  ∃ p2, scheduler__get_thread_type self p1 = Returns (role, p2).
Proof.
  intros (_ & m & Hm & ->)%scheduler_register_thread_returns.
  eexists. eapply scheduler__get_thread_type_found; [done|].
  apply lookup_insert_eq.
Qed.

(** C6, which the code does not meet.  The registry is keyed by
    [(int) tid]: once a thread has registered, the thread whose identity
    lies 2^32 above it, which never registered, is given the same role
    instead of failing the assertion. *)
Theorem scheduler__get_thread_type_unregistered
    {details : Type} (self role : Z) (p p1 : process details) :
  scheduler_register_thread self role p = Returns (tt, p1) →
  ∃ p2, scheduler__get_thread_type (self + 2 ^ 32) p1 = Returns (role, p2).
Proof.
  intros (_ & m & Hm & ->)%scheduler_register_thread_returns.
  eexists. eapply scheduler__get_thread_type_found; [done|].
  rewrite cast_int_wraps. apply lookup_insert_eq.
Qed.

Lemma scheduler__get_thread_type_unregistered_witness :
  Sample.thread_b = Sample.thread_a + 2 ^ 32 ∧
  scheduler__get_thread_type Sample.thread_b Sample.recording = Aborts ∧
  ∃ p2,
    scheduler__get_thread_type Sample.thread_b
      (Sample.state_after
         (scheduler_register_thread Sample.thread_a Sample.THREADPOOL)
         Sample.recording)
    = Returns (Sample.THREADPOOL, p2).
Proof.
  split; [reflexivity|]. split; [vm_compute; reflexivity|].
  apply (scheduler__get_thread_type_unregistered
           Sample.thread_a Sample.THREADPOOL Sample.recording).
  vm_compute; reflexivity.
Defined.

(** ** Emitting the schedule *)

(** A call through a member of [scheduler.impl]: meaningless when the
    member is null; otherwise the outcome of the routine, which changes
    the policy's memory and the record of calls. *)
Lemma through_impl_eq
    {details A : Type} (e : event)
    (member : schedulerImpl_t details →
              option (Z → details → outcome (A * details)))
    (p : process details) :
  through_impl e member p =
    match member (scheduler.impl (the_scheduler p)) with
    | None => Undefined
    | Some routine =>
        outcome_map
          (λ r, (r.1,
                 {| initialized := initialized p;
                    scheduler_initialized := scheduler_initialized p;
                    the_scheduler := the_scheduler p;
                    policy := r.2;
                    calls := calls p ++ [e] |}))
          (routine (scheduler.implDetails (the_scheduler p)) (policy p))
    end.
Proof.
  unfold through_impl. unfold_monad.
  destruct (member (scheduler.impl (the_scheduler p))) as [routine|]; [|done].
  cbn. by destruct (routine _ _) as [[a d]| | |].
Qed.

(** [scheduler_emit] past its assertion.  When the stored bytes hold a
    string that fits [output_file] with its suffix and its NUL, the
    string is handed to the [emit] routine of the policy, and the
    function returns, when the routine does, the address of
    [output_file]; when the string does not fit, or the stored bytes hold
    no NUL, or the member [emit] is null, the call has no meaning. *)
Lemma scheduler_emit_eq
    {details : Type} {hdr : Header} (p : process details) :
  looks_valid p = true →
  let file := scheduler.schedule_file (the_scheduler p) in
  let mode := scheduler.mode (the_scheduler p) in
  scheduler_emit p =
    match strlen file with
    | None => Undefined
    | Some n =>
        if (output_size n mode <=? 1024)%nat then
          match emit (scheduler.impl (the_scheduler p)) with
          | None => Undefined
          | Some routine =>
              outcome_map
                (λ d',
                   (dangling,
                    {| initialized := initialized p;
                       scheduler_initialized := scheduler_initialized p;
                       the_scheduler := the_scheduler p;
                       policy := d';
                       calls := calls p
                                  ++ outward_calls (output_path file mode)
                                       mode emitSchedule |}))
                (routine (output_path file mode)
                   (scheduler.implDetails (the_scheduler p)) (policy p))
          end
        else Undefined
    end.
Proof.
  intros Hv. cbn zeta.
  unfold scheduler_emit. rewrite guarded_eq, Hv.
  unfold libc, strcpy, strcat, output_size, output_path, outward_calls.
  unfold mbind at 1, M_bind. unfold load at 1.
  unfold mbind at 1, M_bind. unfold mbind at 1, M_bind. unfold call at 1.
  destruct (strlen (scheduler.schedule_file (the_scheduler p))) as [n|] eqn:Hn;
    [|reflexivity].
  rewrite (c_str_strlen _ _ Hn).
  assert (length (take n (scheduler.schedule_file (the_scheduler p))) = n)
    as Hlen.
  { apply strlen_lt in Hn. rewrite length_take. lia. }
  destruct (n + 1 <=? 1024)%nat eqn:Hle.
  2: { apply Nat.leb_gt in Hle.
       assert ((n + (if bool_decide (scheduler.mode (the_scheduler p)
                                     = SCHEDULER_MODE_REPLAY)
                     then 8 else 1) <=? 1024)%nat = false) as ->; [|done].
       apply Nat.leb_gt. case_bool_decide; lia. }
  apply Nat.leb_le in Hle.
  cbn [lift]. unfold mbind at 1, M_bind. unfold load at 1. cbn [the_scheduler].
  unfold mbind at 1, M_bind.
  case_bool_decide as Hm.
  - unfold mbind at 1, M_bind. unfold call at 1. rewrite Hlen.
    change (length (list_ascii_of_string "-replay")) with 7%nat.
    replace (n + 7 + 1)%nat with (n + 8)%nat by lia.
    destruct (n + 8 <=? 1024)%nat; [|done].
    cbn [lift]. unfold mbind at 1, M_bind.
    rewrite through_impl_eq. cbn.
    destruct (emit (scheduler.impl (the_scheduler p))) as [routine|]; [|done].
    cbn. unfold returning_void.
    destruct (routine _ _ _) as [d'| | |]; try done.
    cbn. by rewrite <- !app_assoc.
  - assert ((n + 1 <=? 1024)%nat = true) as -> by (by apply Nat.leb_le).
    cbn [mret M_ret]. unfold mbind at 1, M_bind.
    rewrite through_impl_eq. cbn. rewrite !app_nil_r.
    destruct (emit (scheduler.impl (the_scheduler p))) as [routine|]; [|done].
    cbn. unfold returning_void.
    destruct (routine _ _ _) as [d'| | |]; try done.
    cbn. by rewrite <- !app_assoc.
Qed.

(** C3, which the code does not meet.  [output_file] has the 1024 bytes
    of [scheduler.schedule_file] and no room for the suffix: in REPLAY
    mode a stored path of 1017 characters or more makes [strcat] write
    past the end of [output_file], and no path is returned. *)
Theorem scheduler_emit_overflows
    {details : Type} {hdr : Header} (p : process details) (n : nat) :
  looks_valid p = true →
  scheduler.mode (the_scheduler p) = SCHEDULER_MODE_REPLAY →
  strlen (scheduler.schedule_file (the_scheduler p)) = Some n →
  (1017 ≤ n)%nat →
  scheduler_emit p = Undefined.
Proof.
  intros Hv Hm Hn Hlong.
  rewrite (scheduler_emit_eq p Hv). cbn zeta. rewrite Hn.
  unfold output_size. rewrite bool_decide_eq_true_2 by done.
  destruct (n + 8 <=? 1024)%nat eqn:Hfit; [|reflexivity].
  apply Nat.leb_le in Hfit. lia.
Qed.

Lemma scheduler_emit_overflows_witness :
  strlen (scheduler.schedule_file (the_scheduler Sample.replaying_long))
    = Some 1020%nat ∧
  scheduler_emit (hdr := Sample.header) Sample.replaying_long = Undefined.
Proof.
  assert (strlen (scheduler.schedule_file
                    (the_scheduler Sample.replaying_long))
          = Some 1020%nat) as Hn by (vm_compute; reflexivity).
  split; [exact Hn|].
  apply (scheduler_emit_overflows (hdr := Sample.header)
           Sample.replaying_long 1020);
    [vm_compute; reflexivity | vm_compute; reflexivity | exact Hn | lia].
Defined.

(** The path given to [scheduler_init] is handed to the policy as it was
    in RECORD mode, and with the suffix in REPLAY mode; what the caller
    of [scheduler_emit] gets is a dangling pointer. *)
Example scheduler_emit_run_sched :
  policy (Sample.state_after (scheduler_emit (hdr := Sample.header))
            Sample.recording)
    = [call_emit (list_ascii_of_string "run.sched")] ∧
  policy (Sample.state_after (scheduler_emit (hdr := Sample.header))
            Sample.replaying)
    = [call_emit (list_ascii_of_string "run.sched-replay")] ∧
  result_of (scheduler_emit (hdr := Sample.header) Sample.replaying)
    = Returns dangling.
Proof. split_and!; vm_compute; reflexivity. Qed.

(** ** The lock *)

Lemma calls_since_app {details : Type} (p p' : process details) tr :
  calls p' = calls p ++ tr → calls_since p p' = tr.
Proof. unfold calls_since. intros ->. by rewrite drop_app_length. Qed.

(** The lock is taken by [scheduler__lock], and by a thread that holds it
    already. *)
Lemma scheduler__lock_acquires
    {details : Type} (self : Z) (p : process details) :
  owner (scheduler.mutex (the_scheduler p)) = None ∨
  owner (scheduler.mutex (the_scheduler p)) = Some self →
  ∃ p',
    scheduler__lock self p = Returns (tt, p') ∧
    owner (scheduler.mutex (the_scheduler p')) = Some self ∧
    (0 < depth (scheduler.mutex (the_scheduler p')))%nat ∧
    calls_since p p' = [call_reentrant_mutex_lock self].
Proof.
  intros Ho. unfold scheduler__lock, reentrant_mutex_lock. run.
  destruct Ho as [-> | ->].
  - eexists; split_and!; [done|done|cbn; lia|].
    by apply calls_since_app.
  - rewrite decide_True by done.
    eexists; split_and!; [done|done|cbn; lia|].
    by apply calls_since_app.
Qed.

(** C7 as stated fails: [scheduler_thread_yield] forwards to the policy
    with no call to the lock before or after. *)
Lemma scheduler_thread_yield_without_lock :
  ∃ p',
    scheduler_thread_yield 0 0 Sample.recording = Returns (tt, p') ∧
    calls_since Sample.recording p' = [call_thread_yield 0 0] ∧
    forwards_under_lock 0 (calls_since Sample.recording p') = false.
Proof.
  eexists. split; [vm_compute; reflexivity|].
  split; vm_compute; reflexivity.
Qed.

(** C7, amended.  No facade operation acquires or releases the lock: a
    facade operation that returns has made no call to
    [reentrant_mutex_lock] or [reentrant_mutex_unlock] and has left
    [scheduler.mutex] as it was. *)
Theorem facade_call_never_locks
    {details : Type} {hdr : Header}
    (op : facade_op) (p p' : process details) (v : value) :
  facade_call op p = Returns (v, p') →
  Forall (λ e, is_lock_call e = false) (calls_since p p') ∧
  scheduler.mutex (the_scheduler p') = scheduler.mutex (the_scheduler p).
Proof.
  intros (_ & _ & _ & Hs & _ & (tr & Hc & Hl) & _)%facade_call_returns.
  rewrite (calls_since_app _ _ _ Hc). split; [done|]. by rewrite Hs.
Qed.

Lemma facade_call_never_locks_witness :
  let p' :=
    Sample.state_after (facade_call (hdr := Sample.header) (yield 0 0))
      Sample.recording in
  Forall (λ e, is_lock_call e = false) (calls_since Sample.recording p') ∧
  scheduler.mutex (the_scheduler p')
    = scheduler.mutex (the_scheduler Sample.recording).
Proof.
  apply (facade_call_never_locks (hdr := Sample.header)
           (yield 0 0) Sample.recording _ VVoid).
  vm_compute; reflexivity.
Defined.

(** ** The counter and the frame *)

(** C8.  In any run of facade operations, from any state and with any
    policy, a later [executedCount] never returns less than an earlier
    one. *)
Theorem executedCount_never_decreases
    {details : Type} {hdr : Header}
    (ops : list facade_op) (p p' : process details) (vs : list value)
    (i j : nat) (earlier later : Z) :
  facade_run ops p = Returns (vs, p') →
  (i ≤ j)%nat →
  executed_counts ops vs !! i = Some earlier →
  executed_counts ops vs !! j = Some later →
  earlier ≤ later.
Proof.
  intros (_ & _ & _ & _ & _ & Hn)%facade_run_returns _ Hi Hj.
  rewrite Forall_lookup in Hn.
  rewrite (Hn _ _ Hi), (Hn _ _ Hj). lia.
Qed.

Lemma executedCount_never_decreases_witness :
  ∃ vs p',
    facade_run (hdr := Sample.header)
      [executedCount; registerThread Sample.thread_a Sample.LOOPER;
       registerCallback 7; yield 0 0; emitSchedule; executedCount]
      Sample.replaying = Returns (vs, p') ∧
    executed_counts
      [executedCount; registerThread Sample.thread_a Sample.LOOPER;
       registerCallback 7; yield 0 0; emitSchedule; executedCount] vs
      = [0; 0] ∧
    0 ≤ 0.
Proof.
  eexists _, _. split; [vm_compute; reflexivity|].
  split; [reflexivity|].
  eapply (executedCount_never_decreases (hdr := Sample.header)
            [executedCount; registerThread Sample.thread_a Sample.LOOPER;
             registerCallback 7; yield 0 0; emitSchedule; executedCount]
            Sample.replaying _ _ 0 1 0 0);
    [vm_compute; reflexivity | lia | reflexivity | reflexivity].
Defined.

(** [scheduler_register_thread] in a context that looks valid and has a
    registry. *)
Lemma scheduler_register_thread_valid
    {details : Type} (self role : Z) (m : gmap Z Z) (p : process details) :
  looks_valid p = true →
  scheduler.tidToType (the_scheduler p) = Some m →
  scheduler_register_thread self role p =
    Returns (tt,
      {| initialized := initialized p;
         scheduler_initialized := scheduler_initialized p;
         the_scheduler :=
           scheduler.set_tidToType (Some (<[cast_int self := role]> m))
             (the_scheduler p);
         policy := policy p;
         calls := calls p ++ [call_uv_thread_self;
                              call_map_insert (cast_int self) role] |}).
Proof.
  intros Hv Hm. unfold scheduler_register_thread.
  rewrite guarded_eq, Hv. unfold map_insert. run. rewrite Hm. cbn.
  by rewrite <- !app_assoc.
Qed.

(** Registrations that return make of the registry what [registry_after]
    says. *)
Lemma register_all_returns
    {details : Type} (regs : list (Z * Z)) :
  ∀ (p p' : process details) (m : gmap Z Z),
    register_all regs p = Returns (tt, p') →
    scheduler.tidToType (the_scheduler p) = Some m →
    the_scheduler p' =
      scheduler.set_tidToType (Some (registry_after m regs)) (the_scheduler p).
Proof.
  induction regs as [|[self role] regs IH]; intros p p' m Hrun Hm.
  - injection Hrun as <-. cbn. by rewrite <- Hm, set_tidToType_id.
  - cbn [register_all] in Hrun. unfold mbind at 1, M_bind in Hrun.
    destruct (scheduler_register_thread self role p) as [[[] p1]| | |] eqn:Hc;
      try discriminate.
    apply scheduler_register_thread_returns in Hc as (_ & m0 & Hm0 & ->).
    rewrite Hm in Hm0. injection Hm0 as <-.
    rewrite (IH _ _ (<[cast_int self := role]> m) Hrun eq_refl).
    cbn. by destruct (the_scheduler p).
Qed.

(** In a context that looks valid and has a registry, registrations
    return. *)
Lemma register_all_valid
    {details : Type} (regs : list (Z * Z)) :
  ∀ (p : process details) (m : gmap Z Z),
    looks_valid p = true →
    scheduler.tidToType (the_scheduler p) = Some m →
    ∃ p', register_all regs p = Returns (tt, p').
Proof.
  induction regs as [|[self role] regs IH]; intros p m Hv Hm.
  - by exists p.
  - cbn [register_all]. unfold mbind at 1, M_bind.
    rewrite (scheduler_register_thread_valid self role m p Hv Hm).
    by eapply IH.
Qed.

(** A run of facade operations makes of the registry what the
    registrations among its operations make of it. *)
Lemma facade_run_registry
    {details : Type} {hdr : Header} (ops : list facade_op) :
  ∀ (p p' : process details) (vs : list value) (m : gmap Z Z),
    facade_run ops p = Returns (vs, p') →
    scheduler.tidToType (the_scheduler p) = Some m →
    scheduler.tidToType (the_scheduler p')
      = Some (registry_after m (registrations ops)).
Proof.
  induction ops as [|op ops IH]; intros p p' vs m Hr Hm.
  - by injection Hr as <- <-.
  - apply facade_run_cons in Hr as (v & p1 & vs' & Hc & Hr & ->).
    destruct (decide (is_registerThread op = true)) as [Hreg|Hreg].
    + destruct op; try discriminate. cbn [facade_call] in Hc.
      unfold mbind at 1, M_bind in Hc.
      destruct (scheduler_register_thread self role p)
        as [[[] p2]| | |] eqn:Hreturn; try discriminate.
      injection Hc as <- <-.
      apply scheduler_register_thread_returns in Hreturn
        as (_ & m0 & Hm0 & ->).
      rewrite Hm in Hm0. injection Hm0 as <-.
      by rewrite (IH _ _ _ (<[cast_int self := role]> m) Hr eq_refl).
    + apply facade_call_returns in Hc as (_ & _ & _ & _ & Hsame & _).
      rewrite <- Hsame in Hm by (by destruct (is_registerThread op)).
      rewrite (IH _ _ _ m Hr Hm). by destruct op.
Qed.

(** Every [getMode] of a run returns the member [mode]. *)
Lemma facade_run_modes
    {details : Type} {hdr : Header} (ops : list facade_op) :
  ∀ (p p' : process details) (vs : list value),
    facade_run ops p = Returns (vs, p') →
    Forall (λ z, z = scheduler.mode (the_scheduler p)) (returned_modes ops vs).
Proof.
  induction ops as [|op ops IH]; intros p p' vs Hr.
  - by injection Hr as <- <-.
  - apply facade_run_cons in Hr as (v & p1 & vs' & Hc & Hr & ->).
    apply facade_call_returns in Hc as (_ & _ & _ & Hs & _ & _ & _ & Hmode).
    apply IH in Hr.
    assert (scheduler.mode (the_scheduler p1) = scheduler.mode (the_scheduler p))
      as Hm by (by rewrite Hs).
    rewrite Hm in Hr.
    destruct op; cbn [returned_modes]; destruct v; try done.
    constructor; [|done]. specialize (Hmode eq_refl). congruence.
Qed.

(** C9.  After [scheduler_init] has returned, a run of facade operations
    leaves every member of [scheduler] but [tidToType] as
    [scheduler_init] set it; the registry is what the [registerThread]
    operations of the run, alone and in their order, make of the registry
    that [scheduler_init] left, so that no other operation updates it;
    the path stored is still the one stored by [scheduler_init], whatever
    [emitSchedule] did; and every [getMode] of the run, as any [getMode]
    after it in a context that looks valid, returns the mode given to
    [scheduler_init]. *)
Theorem facade_run_preserves_context
    {details : Type} {hdr : Header} {bld : Build} {pol : Policies details}
    (type mode : Z) (file : list ascii) (args : Z)
    (ops : list facade_op) (vs : list value) (p0 p1 p2 : process details) :
  scheduler_init type mode file args p0 = Returns (tt, p1) →
  facade_run ops p1 = Returns (vs, p2) →
  the_scheduler p2 =
    scheduler.set_tidToType (scheduler.tidToType (the_scheduler p2))
      (the_scheduler p1) ∧
  (∃ pr,
     register_all (registrations ops) p1 = Returns (tt, pr) ∧
     scheduler.tidToType (the_scheduler p2)
       = scheduler.tidToType (the_scheduler pr)) ∧
  (forallb (λ op, negb (is_registerThread op)) ops = true →
   the_scheduler p2 = the_scheduler p1) ∧
  scheduler.schedule_file (the_scheduler p2) = strncpy file 1024 ∧
  scheduler.n_executed (the_scheduler p2) = 0 ∧
  scheduler.mode (the_scheduler p2) = mode ∧
  Forall (λ z, z = mode) (returned_modes ops vs) ∧
  (looks_valid p2 = true →
   scheduler_get_scheduler_mode p2 = Returns (mode, p2)).
Proof.
  intros Hinit Hrun.
  apply scheduler_init_returns in Hinit
    as (_ & _ & e & table & handle & d & _ & ->).
  set (p1 := initialised type mode file args e table handle d p0) in *.
  pose proof (facade_run_registry ops p1 p2 vs ∅ Hrun eq_refl) as Hregistry.
  pose proof (facade_run_modes ops p1 p2 vs Hrun) as Hmodes.
  pose proof Hrun as (_ & _ & Hs & Hreg & _ & _)%facade_run_returns.
  assert (scheduler.mode (the_scheduler p2) = mode) as Hmode
    by (by rewrite Hs).
  assert (∃ pr, register_all (registrations ops) p1 = Returns (tt, pr))
    as [pr Hpr].
  { destruct ops as [|op ops']; [by exists p1|].
    apply facade_run_cons in Hrun as (v & p' & vs' & Hc & _ & _).
    apply facade_call_returns in Hc as (Hv & _).
    by eapply register_all_valid. }
  split_and!; [done| |done|by rewrite Hs|by rewrite Hs|done|done|].
  - exists pr. split; [done|].
    rewrite (register_all_returns _ _ _ ∅ Hpr eq_refl). by rewrite Hregistry.
  - intros Hv. unfold scheduler_get_scheduler_mode.
    rewrite guarded_eq, Hv. unfold load. by rewrite Hmode.
Qed.

Lemma facade_run_preserves_context_witness :
  let ops :=
    [registerThread Sample.thread_a Sample.LOOPER; yield 0 0;
     emitSchedule; getMode] in
  let p2 :=
    Sample.state_after (facade_run (hdr := Sample.header) ops)
      Sample.replaying in
  facade_run (hdr := Sample.header) ops Sample.replaying
    = Returns ([VVoid; VVoid; VPointer dangling; VInt 1], p2) ∧
  scheduler.tidToType (the_scheduler p2)
    = Some (<[cast_int Sample.thread_a := Sample.LOOPER]> ∅) ∧
  scheduler.schedule_file (the_scheduler p2)
    = strncpy (list_ascii_of_string "run.sched") 1024 ∧
  scheduler.mode (the_scheduler p2) = 1 ∧
  returned_modes ops [VVoid; VVoid; VPointer dangling; VInt 1] = [1] ∧
  scheduler_get_scheduler_mode p2 = Returns (1, p2).
Proof.
  intros ops p2.
  assert (facade_run (hdr := Sample.header) ops Sample.replaying
          = Returns ([VVoid; VVoid; VPointer dangling; VInt 1], p2)) as Hrun
    by (vm_compute; reflexivity).
  split; [exact Hrun|].
  destruct (facade_run_preserves_context
              (hdr := Sample.header) (bld := Sample.build)
              (pol := Sample.policies)
              0 1 (list_ascii_of_string Sample.run_sched) 0
              ops _ Sample.armed Sample.replaying p2
              ltac:(vm_compute; reflexivity) Hrun)
    as (_ & _ & _ & Hfile & _ & Hmode & _ & Hget).
  split; [vm_compute; reflexivity|].
  split; [exact Hfile|]. split; [exact Hmode|]. split; [reflexivity|].
  apply Hget. vm_compute; reflexivity.
Defined.

(** * Further properties of [scheduler.c] *)

(** ** The string tables *)

Lemma string_table_lookup (n : Z) (init : list string) (k : nat) :
  (k < Z.to_nat n)%nat → string_table n init !! k = Some (init !! k).
Proof.
  intros Hk. unfold string_table.
  destruct (decide (k < length init)%nat) as [Hin|Hout].
  - rewrite lookup_app_l by (rewrite length_take, length_fmap; lia).
    rewrite lookup_take_lt by done. rewrite list_lookup_fmap.
    destruct (lookup_lt_is_Some_2 init k Hin) as [x ->]. done.
  - rewrite lookup_app_r by (rewrite length_take, length_fmap; lia).
    rewrite length_take, length_fmap.
    rewrite (lookup_ge_None_2 init k) by lia.
    replace (Z.to_nat n `min` length init)%nat with (length init) by lia.
    rewrite lookup_replicate_2 by lia. done.
Qed.

(** Reading a table of [hi - lo + 1] entries at the offset of an accepted
    value. *)
Lemma table_read_accepted (lo hi v : Z) (init : list string) :
  lo ≤ v < hi →
  table_read (string_table (hi - lo + 1) init) (v - lo)
    = Returns (init !! Z.to_nat (v - lo)).
Proof.
  intros Hv. unfold table_read.
  destruct (0 <=? v - lo) eqn:H0; [|apply Z.leb_gt in H0; lia].
  rewrite string_table_lookup by lia. done.
Qed.

(** The body shared by the to-string functions, for bounds [lo] and
    [hi] and a table of [hi - lo + 1] entries. *)
Lemma to_string_body (lo hi v : Z) (names : list string) :
  (if (lo <=? v) && (v <? hi)
   then table_read (string_table (hi - lo + 1) names) (v - lo)
   else Aborts)
  = (if bool_decide (lo ≤ v < hi)
     then Returns (names !! Z.to_nat (v - lo)) else Aborts).
Proof.
  case_bool_decide as Hv.
  - assert ((lo <=? v) && (v <? hi) = true) as ->
      by (apply andb_true_iff; split; [apply Z.leb_le|apply Z.ltb_lt]; lia).
    by apply table_read_accepted.
  - assert ((lo <=? v) && (v <? hi) = false) as ->; [|done].
    apply andb_false_iff.
    destruct (decide (lo ≤ v));
      [right; apply Z.ltb_ge|left; apply Z.leb_gt]; lia.
Qed.

(** X1.  Each of the three to-string functions that use their parameter
    returns for the values from [SCHEDULER_MODE_MIN] up to, not
    including, [SCHEDULER_MODE_MAX], and aborts for every other value; it
    never reads outside its table.  For an accepted value it returns the
    initialiser at the value's offset, and a null pointer when the table
    has no initialiser there. *)
Theorem to_string_by_offset {hdr : Header} (v : Z) :
  let accepted :=
    bool_decide (SCHEDULER_MODE_MIN ≤ v < SCHEDULER_MODE_MAX) in
  let offset := Z.to_nat (v - SCHEDULER_MODE_MIN) in
  scheduler_type_to_string v
    = (if accepted then Returns (scheduler_type_names !! offset)
       else Aborts) ∧
  scheduler_mode_to_string v
    = (if accepted then Returns (scheduler_mode_names !! offset)
       else Aborts) ∧
  thread_type_to_string v
    = (if accepted then Returns (thread_type_names !! offset)
       else Aborts).
Proof. cbn zeta. split_and!; apply to_string_body. Qed.

Lemma names_lookup_inj (names : list string) (i j : nat) (name : string) :
  NoDup names → names !! i = Some name → names !! j = Some name → i = j.
Proof. intros Hnd Hi Hj. by eapply NoDup_lookup. Qed.

(** X2.  None of the three to-string functions that use their parameter
    gives one name to two values: two values for which one of them
    returns the same non-null name are equal. *)
Theorem to_string_names_distinct {hdr : Header} (a b : Z) (name : string) :
  (scheduler_type_to_string a = Returns (Some name) ∧
   scheduler_type_to_string b = Returns (Some name)) ∨
  (scheduler_mode_to_string a = Returns (Some name) ∧
   scheduler_mode_to_string b = Returns (Some name)) ∨
  (thread_type_to_string a = Returns (Some name) ∧
   thread_type_to_string b = Returns (Some name)) →
  a = b.
Proof.
  unfold scheduler_type_to_string, scheduler_mode_to_string,
    thread_type_to_string, scheduler_type_strings, scheduler_mode_strings,
    thread_type_strings.
  rewrite !to_string_body.
  assert (∀ names : list string, NoDup names →
            (if bool_decide (SCHEDULER_MODE_MIN ≤ a < SCHEDULER_MODE_MAX)
             then Returns (names !! Z.to_nat (a - SCHEDULER_MODE_MIN))
             else Aborts) = Returns (Some name) →
            (if bool_decide (SCHEDULER_MODE_MIN ≤ b < SCHEDULER_MODE_MAX)
             then Returns (names !! Z.to_nat (b - SCHEDULER_MODE_MIN))
             else Aborts) = Returns (Some name) →
            a = b) as Hinj.
  { intros names Hnd Ha Hb.
    case_bool_decide as Hra'; [|discriminate].
    case_bool_decide as Hrb'; [|discriminate].
    injection Ha as Ha. injection Hb as Hb.
    pose proof (names_lookup_inj _ _ _ _ Hnd Ha Hb). lia. }
  intros [[Ha Hb]|[[Ha Hb]|[Ha Hb]]]; revert Ha Hb; apply Hinj;
    by apply (bool_decide_unpack _).
Qed.

Lemma to_string_names_distinct_witness :
  scheduler_mode_to_string (hdr := Sample.header) 1
    = Returns (Some "REPLAY"%string) ∧
  1 = 1.
Proof.
  assert (scheduler_mode_to_string (hdr := Sample.header) 1
          = Returns (Some "REPLAY"%string)) as Hm by reflexivity.
  split; [exact Hm|].
  apply (to_string_names_distinct (hdr := Sample.header) 1 1 "REPLAY"%string).
  right; left. split; exact Hm.
Defined.

(** ** Initialisation, again *)

(** X3.  [scheduler_init] returns exactly when [initialized] is clear,
    the type is [SCHEDULER_TYPE_CBTREE], and the first constructor
    compiled in, in the order of the source text, returns.  With no
    policy compiled in it never returns. *)
Theorem scheduler_init_returns_iff
    {details : Type} {hdr : Header} {bld : Build} {pol : Policies details}
    (type mode : Z) (file : list ascii) (args : Z) (p : process details) :
  returned (scheduler_init type mode file args p) = true ↔
  initialized p = 0 ∧ type = SCHEDULER_TYPE_CBTREE ∧
  ∃ e table handle d,
    reached_from_CBTREE mode args = Some (e, Returns (table, handle, d)).
Proof.
  split.
  - destruct (scheduler_init type mode file args p) as [[[] p']| | |] eqn:Hr;
      try discriminate.
    intros _.
    apply scheduler_init_returns in Hr
      as (Hi & Ht & e & table & handle & d & Hreach & _).
    eauto 10.
  - intros (Hi & -> & e & table & handle & d & Hreach).
    rewrite scheduler_init_CBTREE by done. by rewrite Hreach.
Qed.

(** X5.  After [scheduler_init] has returned the registry is empty: the
    role lookup aborts for every thread identity, whatever was registered
    before the call. *)
Theorem scheduler_init_forgets_threads
    {details : Type} {hdr : Header} {bld : Build} {pol : Policies details}
    (type mode : Z) (file : list ascii) (args : Z)
    (p p1 : process details) (tid : Z) :
  scheduler_init type mode file args p = Returns (tt, p1) →
  scheduler__get_thread_type tid p1 = Aborts.
Proof.
  intros (_ & _ & e & table & handle & d & _ & ->)%scheduler_init_returns.
  by eapply scheduler__get_thread_type_absent.
Qed.

Lemma scheduler_init_forgets_threads_witness :
  let registered :=
    Sample.state_after
      (scheduler_register_thread Sample.thread_a Sample.THREADPOOL)
      Sample.recording in
  result_of (scheduler__get_thread_type Sample.thread_a registered)
    = Returns Sample.THREADPOOL ∧
  scheduler__get_thread_type Sample.thread_a
    (Sample.state_after (Sample.init 0 0 Sample.run_sched 0) registered)
    = Aborts.
Proof.
  intros registered. split; [vm_compute; reflexivity|].
  apply (scheduler_init_forgets_threads
           (hdr := Sample.header) (bld := Sample.build)
           (pol := Sample.policies)
           0 0 (list_ascii_of_string Sample.run_sched) 0 registered).
  vm_compute; reflexivity.
Defined.

(** X6.  [scheduler_init] assigns eight of the ten members of
    [scheduler] itself, each to a value fixed by its arguments: whatever
    context it found, these eight are the same when it returns, so that
    nothing of them survives from an earlier initialisation; the lock is
    as [reentrant_mutex_init] leaves it even if it was held. *)
Theorem scheduler_init_overwrites
    {details : Type} {hdr : Header} {bld : Build} {pol : Policies details}
    (type mode : Z) (file : list ascii) (args : Z)
    (p p' q q' : process details) :
  scheduler_init type mode file args p = Returns (tt, p') →
  scheduler_init type mode file args q = Returns (tt, q') →
  own_members (the_scheduler p') = own_members (the_scheduler q') ∧
  own_members (the_scheduler q') =
    (SCHEDULER_MAGIC, type, mode, strncpy file 1024, args, 0, Some ∅,
     reentrant_mutex_init).
Proof.
  intros (_ & _ & e & table & handle & d & _ & ->)%scheduler_init_returns.
  intros (_ & _ & e' & table' & handle' & d' & _ & ->)%scheduler_init_returns.
  done.
Qed.

Lemma scheduler_init_overwrites_witness :
  let locked := Sample.state_after (scheduler__lock 5) Sample.recording in
  owner (scheduler.mutex (the_scheduler locked)) = Some 5 ∧
  own_members (the_scheduler Sample.booted)
    = own_members
        (the_scheduler
           (Sample.state_after (Sample.init 0 0 Sample.run_sched 0) locked)) ∧
  scheduler.mutex
    (the_scheduler
       (Sample.state_after (Sample.init 0 0 Sample.run_sched 0) locked))
    = reentrant_mutex_init.
Proof.
  intros locked. split; [vm_compute; reflexivity|].
  destruct (scheduler_init_overwrites
              (hdr := Sample.header) (bld := Sample.build)
              (pol := Sample.policies)
              0 0 (list_ascii_of_string Sample.run_sched) 0
              Sample.boot Sample.booted locked
              (Sample.state_after (Sample.init 0 0 Sample.run_sched 0) locked)
              ltac:(vm_compute; reflexivity) ltac:(vm_compute; reflexivity))
    as (Hs & Hq).
  split; [exact Hs|].
  exact (f_equal snd Hq).
Defined.

(** ** The two flags *)

(** [scheduler__lock] and [scheduler__unlock] assign [scheduler.mutex]
    and nothing else. *)
Lemma scheduler__lock_returns
    {details : Type} (self : Z) (p p' : process details) u :
  scheduler__lock self p = Returns (u, p') →
  ∃ mx,
    reentrant_mutex_lock self (scheduler.mutex (the_scheduler p))
      = Returns mx ∧
    p' = {| initialized := initialized p;
            scheduler_initialized := scheduler_initialized p;
            the_scheduler := scheduler.set_mutex mx (the_scheduler p);
            policy := policy p;
            calls := calls p ++ [call_reentrant_mutex_lock self] |}.
Proof.
  unfold scheduler__lock. run.
  destruct (reentrant_mutex_lock self _) as [mx| | |]; try discriminate.
  cbn. intros [= <-]. by exists mx.
Qed.

Lemma scheduler__unlock_returns
    {details : Type} (self : Z) (p p' : process details) u :
  scheduler__unlock self p = Returns (u, p') →
  ∃ mx,
    reentrant_mutex_unlock self (scheduler.mutex (the_scheduler p))
      = Returns mx ∧
    p' = {| initialized := initialized p;
            scheduler_initialized := scheduler_initialized p;
            the_scheduler := scheduler.set_mutex mx (the_scheduler p);
            policy := policy p;
            calls := calls p ++ [call_reentrant_mutex_unlock self] |}.
Proof.
  unfold scheduler__unlock. run.
  destruct (reentrant_mutex_unlock self _) as [mx| | |]; try discriminate.
  cbn. intros [= <-]. by exists mx.
Qed.

(** [scheduler__get_thread_type] assigns nothing. *)
Lemma scheduler__get_thread_type_returns
    {details : Type} (tid role : Z) (p p' : process details) :
  scheduler__get_thread_type tid p = Returns (role, p') →
  ∃ m,
    scheduler.tidToType (the_scheduler p) = Some m ∧
    m !! cast_int tid = Some role ∧
    p' = {| initialized := initialized p;
            scheduler_initialized := scheduler_initialized p;
            the_scheduler := the_scheduler p;
            policy := policy p;
            calls := calls p ++ [call_map_lookup (cast_int tid)] |}.
Proof.
  unfold scheduler__get_thread_type, map_lookup. run.
  destruct (scheduler.tidToType (the_scheduler p)) as [m|]; [|discriminate].
  cbn. destruct (m !! cast_int tid) as [r|] eqn:Hk; cbn; [|discriminate].
  intros [= <- <-]. by exists m.
Qed.

Lemma api_call_flags
    {details : Type} {hdr : Header} {bld : Build} {pol : Policies details}
    (op : api_op) (p p' : process details) u :
  api_call op p = Returns (u, p') →
  initialized p' = initialized p ∧
  scheduler_initialized p' = scheduler_initialized p.
Proof.
  destruct u.
  destruct op as [type mode file args|op|self|self|tid]; cbn [api_call].
  - intros (_ & _ & e & table & handle & d & _ & ->)%scheduler_init_returns.
    split; reflexivity.
  - unfold mbind, M_bind.
    destruct (facade_call op p) as [[v p1]| | |] eqn:Hc; try discriminate.
    intros [= <-].
    apply facade_call_returns in Hc as (_ & Hi & Hsi & _). by split.
  - intros (mx & _ & ->)%scheduler__lock_returns. split; reflexivity.
  - intros (mx & _ & ->)%scheduler__unlock_returns. split; reflexivity.
  - unfold mbind, M_bind.
    destruct (scheduler__get_thread_type tid p) as [[v p1]| | |] eqn:Hc;
      try discriminate.
    intros [= <-].
    apply scheduler__get_thread_type_returns in Hc as (m & _ & _ & ->).
    split; reflexivity.
Qed.

(** X4.  No function of [scheduler.c] assigns [initialized] or
    [scheduler_initialized]: they are as they were after any sequence of
    calls to the public and protected API.  From a process in which
    [scheduler_initialized] is clear, no such sequence leads to a state
    in which a facade operation passes its assertion. *)
Theorem api_run_keeps_flags
    {details : Type} {hdr : Header} {bld : Build} {pol : Policies details}
    (ops : list api_op) (p p' : process details) :
  api_run ops p = Returns (tt, p') →
  initialized p' = initialized p ∧
  scheduler_initialized p' = scheduler_initialized p ∧
  (scheduler_initialized p = 0 → ∀ op, facade_call op p' = Aborts).
Proof.
  intros Hrun.
  assert (initialized p' = initialized p ∧
          scheduler_initialized p' = scheduler_initialized p) as [Hi Hsi].
  { revert p Hrun. induction ops as [|op ops IH]; intros p Hrun.
    - by injection Hrun as <-.
    - cbn [api_run] in Hrun. unfold mbind at 1, M_bind in Hrun.
      destruct (api_call op p) as [[u p1]| | |] eqn:Hc; try discriminate.
      apply api_call_flags in Hc as [Hi Hsi].
      apply IH in Hrun as [Hi' Hsi']. split; congruence. }
  split_and!; [done..|].
  intros Hz op. apply facade_call_invalid.
  unfold looks_valid. by rewrite Hsi, Hz.
Qed.

Lemma api_run_keeps_flags_witness :
  let ops :=
    [api_init 0 0 (list_ascii_of_string "run.sched") 0;
     api_lock 5; api_unlock 5;
     api_init 0 1 (list_ascii_of_string "other.sched") 0] in
  returned (api_run (hdr := Sample.header) (bld := Sample.build)
              (pol := Sample.policies) ops Sample.boot) = true ∧
  facade_call (hdr := Sample.header) getMode
    (Sample.state_after
       (api_run (hdr := Sample.header) (bld := Sample.build)
          (pol := Sample.policies) ops) Sample.boot)
    = Aborts.
Proof.
  intros ops. split; [vm_compute; reflexivity|].
  destruct (api_run_keeps_flags
              (hdr := Sample.header) (bld := Sample.build)
              (pol := Sample.policies) ops Sample.boot
              (Sample.state_after
                 (api_run (hdr := Sample.header) (bld := Sample.build)
                    (pol := Sample.policies) ops) Sample.boot)
              ltac:(vm_compute; reflexivity))
    as (_ & _ & Hab).
  apply Hab. reflexivity.
Defined.

(** ** The registry, over many registrations *)

(** Registrations under other keys leave the binding of a key as it
    was. *)
Lemma registry_after_other (regs : list (Z * Z)) (k : Z) :
  ∀ m : gmap Z Z,
    Forall (λ reg, cast_int reg.1 ≠ k) regs →
    registry_after m regs !! k = m !! k.
Proof.
  induction regs as [|[self role] regs IH]; intros m Hregs; [done|].
  apply Forall_cons in Hregs as [Hk Hregs]. cbn in Hk.
  cbn [registry_after foldl].
  fold (registry_after (<[cast_int self := role]> m) regs).
  rewrite IH by done. by apply lookup_insert_ne.
Qed.

(** Among registrations under pairwise distinct keys, each one is still
    bound at the end. *)
Lemma registry_after_bound (regs : list (Z * Z)) (self role : Z) :
  ∀ m : gmap Z Z,
    NoDup (cast_int <$> regs.*1) →
    (self, role) ∈ regs →
    registry_after m regs !! cast_int self = Some role.
Proof.
  induction regs as [|[self0 role0] regs IH]; intros m Hnd Hin.
  - by apply elem_of_nil in Hin.
  - cbn in Hnd. apply NoDup_cons in Hnd as [Hfresh Hnd].
    cbn [registry_after foldl].
    fold (registry_after (<[cast_int self0 := role0]> m) regs).
    apply elem_of_cons in Hin as [[= -> ->]|Hin].
    + rewrite registry_after_other; [apply lookup_insert_eq|].
      apply Forall_forall. intros reg Hreg Heq. apply Hfresh.
      rewrite <- Heq. apply list_elem_of_fmap. exists reg.1. split; [done|].
      apply list_elem_of_fmap. by exists reg.
    + by apply IH.
Qed.

Lemma scheduler__get_thread_type_result
    {details : Type} (tid : Z) (m : gmap Z Z) (p : process details) :
  scheduler.tidToType (the_scheduler p) = Some m →
  result_of (scheduler__get_thread_type tid p) =
    match m !! cast_int tid with
    | Some r => Returns r
    | None => Aborts
    end.
Proof.
  intros Hm. destruct (m !! cast_int tid) as [r|] eqn:Hk.
  - by rewrite (scheduler__get_thread_type_found tid r m p Hm Hk).
  - by rewrite (scheduler__get_thread_type_absent tid m p Hm Hk).
Qed.

(** X7.  Each of several threads gets back its own role: when threads
    with pairwise distinct keys have registered in a registry that
    started empty, the role lookup for each of them returns the role it
    registered, whoever registered after it. *)
Theorem register_all_round_trip
    {details : Type} (regs : list (Z * Z)) (self role : Z)
    (p p' : process details) :
  register_all regs p = Returns (tt, p') →
  scheduler.tidToType (the_scheduler p) = Some ∅ →
  NoDup (cast_int <$> regs.*1) →
  (self, role) ∈ regs →
  result_of (scheduler__get_thread_type self p') = Returns role.
Proof.
  intros Hrun Hm Hnd Hin.
  pose proof (register_all_returns regs p p' ∅ Hrun Hm) as Hs.
  rewrite (scheduler__get_thread_type_result self (registry_after ∅ regs))
    by (by rewrite Hs).
  by rewrite (registry_after_bound regs self role ∅ Hnd Hin).
Qed.

Lemma register_all_round_trip_witness :
  let regs := [(7, Sample.LOOPER); (9, Sample.THREADPOOL);
               (11, Sample.THREADPOOL)] in
  let p' := Sample.state_after (register_all regs) Sample.recording in
  result_of (scheduler__get_thread_type 7 p') = Returns Sample.LOOPER ∧
  result_of (scheduler__get_thread_type 9 p') = Returns Sample.THREADPOOL.
Proof.
  intros regs p'.
  assert (register_all regs Sample.recording = Returns (tt, p')) as Hrun
    by (vm_compute; reflexivity).
  assert (NoDup (cast_int <$> regs.*1)) as Hnd
    by (apply (bool_decide_unpack _); vm_compute; exact I).
  split.
  - apply (register_all_round_trip regs 7 Sample.LOOPER Sample.recording p'
             Hrun ltac:(vm_compute; reflexivity) Hnd).
    apply list_elem_of_here.
  - apply (register_all_round_trip regs 9 Sample.THREADPOOL
             Sample.recording p' Hrun ltac:(vm_compute; reflexivity) Hnd).
    apply list_elem_of_further, list_elem_of_here.
Defined.

(** X8.  Registering a thread a second time under the same role changes
    nothing: the second call returns and leaves the context as the first
    one left it. *)
Theorem scheduler_register_thread_again
    {details : Type} (self role : Z) (p p1 : process details) :
  scheduler_register_thread self role p = Returns (tt, p1) →
  ∃ p2,
    scheduler_register_thread self role p1 = Returns (tt, p2) ∧
    the_scheduler p2 = the_scheduler p1.
Proof.
  intros (Hv & m & Hm & ->)%scheduler_register_thread_returns.
  eexists. split.
  - by apply scheduler_register_thread_valid.
  - cbn. by rewrite insert_insert_eq.
Qed.

Lemma scheduler_register_thread_again_witness :
  let p1 :=
    Sample.state_after
      (scheduler_register_thread Sample.thread_a Sample.LOOPER)
      Sample.recording in
  ∃ p2,
    scheduler_register_thread Sample.thread_a Sample.LOOPER p1
      = Returns (tt, p2) ∧
    the_scheduler p2 = the_scheduler p1.
Proof.
  intros p1.
  apply (scheduler_register_thread_again
           Sample.thread_a Sample.LOOPER Sample.recording p1).
  vm_compute; reflexivity.
Defined.

Lemma cast_int_inj_near (a b : Z) :
  cast_int a = cast_int b → Z.abs (a - b) < 2 ^ 32 → a = b.
Proof.
  unfold cast_int. intros Heq Hnear.
  pose proof (Z.div_mod (a + 2 ^ 31) (2 ^ 32) ltac:(lia)) as Ha.
  pose proof (Z.div_mod (b + 2 ^ 31) (2 ^ 32) ltac:(lia)) as Hb.
  assert ((a + 2 ^ 31) mod 2 ^ 32 = (b + 2 ^ 31) mod 2 ^ 32) as Hm by lia.
  rewrite Hm in Ha. lia.
Qed.

(** X9.  Identities less than 2^32 apart never share a key: in a
    registry that starts empty, the lookup for a thread that did not
    register aborts as long as every thread that did lies within 2^32 of
    it. *)
Theorem register_all_unregistered_aborts
    {details : Type} (regs : list (Z * Z)) (tid : Z)
    (p p' : process details) :
  register_all regs p = Returns (tt, p') →
  scheduler.tidToType (the_scheduler p) = Some ∅ →
  Forall (λ reg, reg.1 ≠ tid ∧ Z.abs (reg.1 - tid) < 2 ^ 32) regs →
  scheduler__get_thread_type tid p' = Aborts.
Proof.
  intros Hrun Hm Hregs.
  pose proof (register_all_returns regs p p' ∅ Hrun Hm) as Hs.
  eapply scheduler__get_thread_type_absent; [by rewrite Hs|].
  rewrite registry_after_other; [apply lookup_empty|].
  eapply Forall_impl; [exact Hregs|].
  intros reg [Hne Hnear] Hk. by apply Hne, cast_int_inj_near.
Qed.

Lemma register_all_unregistered_aborts_witness :
  let regs := [(Sample.thread_a, Sample.LOOPER);
               (Sample.thread_a + 0x800000, Sample.THREADPOOL)] in
  scheduler__get_thread_type (Sample.thread_a + 0x1000000)
    (Sample.state_after (register_all regs) Sample.recording)
  = Aborts.
Proof.
  intros regs.
  apply (register_all_unregistered_aborts regs (Sample.thread_a + 0x1000000)
           Sample.recording).
  - vm_compute; reflexivity.
  - vm_compute; reflexivity.
  - repeat constructor; cbn; unfold Sample.thread_a; lia.
Defined.

(** ** The output path *)

(** X10.  In a context that looks valid and whose member [emit] is not
    null, [scheduler_emit] hands to the policy the string stored in
    [scheduler.schedule_file], with "-replay" after it in REPLAY mode,
    exactly when that string and its NUL fit the 1024 bytes of
    [output_file]; when they do not fit, or the stored bytes hold no NUL,
    the call has no meaning and the policy is not reached.  What the
    function returns is the address of its local array, never a path. *)
Theorem scheduler_emit_result
    {details : Type} {hdr : Header} (p : process details)
    (routine : list ascii → Z → details → outcome details) :
  looks_valid p = true →
  emit (scheduler.impl (the_scheduler p)) = Some routine →
  scheduler_emit p =
    match strlen (scheduler.schedule_file (the_scheduler p)) with
    | Some n =>
        if (output_size n (scheduler.mode (the_scheduler p)) <=? 1024)%nat
        then hands_over routine
               (output_path (scheduler.schedule_file (the_scheduler p))
                  (scheduler.mode (the_scheduler p))) p
        else Undefined
    | None => Undefined
    end.
Proof.
  intros Hv Hroutine. rewrite (scheduler_emit_eq p Hv). cbn zeta.
  by rewrite Hroutine.
Qed.

Lemma scheduler_emit_result_witness :
  policy (Sample.state_after (scheduler_emit (hdr := Sample.header))
            Sample.replaying)
    = [call_emit (list_ascii_of_string "run.sched-replay")] ∧
  result_of (scheduler_emit (hdr := Sample.header) Sample.replaying)
    = Returns dangling ∧
  scheduler_emit (hdr := Sample.header) Sample.replaying_long = Undefined.
Proof.
  assert (∀ p, looks_valid p = true →
            emit (scheduler.impl (the_scheduler p))
              = emit Sample.journal →
            scheduler_emit (hdr := Sample.header) p = _) as Heq
    by (intros p Hv Hr;
        exact (scheduler_emit_result (hdr := Sample.header) p _ Hv Hr)).
  split_and!.
  - unfold Sample.state_after. rewrite Heq by (vm_compute; reflexivity).
    vm_compute; reflexivity.
  - rewrite Heq by (vm_compute; reflexivity). vm_compute; reflexivity.
  - rewrite Heq by (vm_compute; reflexivity). vm_compute; reflexivity.
Defined.

(** X11.  From [scheduler_init] to [scheduler_emit], in a process whose
    [scheduler_initialized] is set: the path given to [scheduler_init] is
    the string handed to the policy, with "-replay" after it in REPLAY
    mode, when it has at most 1023 characters, 1016 in REPLAY mode; a
    longer path, which [scheduler_init] accepts, makes [scheduler_emit]
    meaningless before the policy is reached. *)
Theorem scheduler_emit_after_init
    {details : Type} {hdr : Header} {bld : Build} {pol : Policies details}
    (type mode : Z) (file : list ascii) (args : Z) (p p1 : process details)
    (routine : list ascii → Z → details → outcome details) :
  scheduler_initialized p ≠ 0 →
  scheduler_init type mode file args p = Returns (tt, p1) →
  emit (scheduler.impl (the_scheduler p1)) = Some routine →
  scheduler_emit p1 =
    if (output_size (length (c_str file)) mode <=? 1024)%nat
    then hands_over routine
           (c_str file
              ++ (if bool_decide (mode = SCHEDULER_MODE_REPLAY)
                  then list_ascii_of_string "-replay" else [])) p1
    else Undefined.
Proof.
  intros Hflag.
  intros (_ & _ & e & table & handle & d & _ & ->)%scheduler_init_returns.
  set (p1 := initialised type mode file args e table handle d p).
  intros Hroutine.
  assert (looks_valid p1 = true) as Hv.
  { unfold looks_valid. cbn. apply andb_true_iff. split; [|done].
    apply negb_true_iff, Z.eqb_neq. done. }
  rewrite (scheduler_emit_eq p1 Hv). cbn zeta.
  change (scheduler.schedule_file (the_scheduler p1))
    with (strncpy file 1024).
  change (scheduler.mode (the_scheduler p1)) with mode.
  destruct (decide (length (c_str file) < 1024)%nat) as [Hshort|Hlong].
  - destruct (strncpy_short file 1024 Hshort) as [Hn Htake].
    rewrite Hn, Hroutine. unfold output_path.
    by rewrite (c_str_strlen _ _ Hn), Htake.
  - destruct (strncpy_long file 1024 ltac:(lia)) as [_ Hnone].
    rewrite Hnone.
    assert ((output_size (length (c_str file)) mode <=? 1024)%nat = false)
      as ->; [|done].
    apply Nat.leb_gt. unfold output_size. case_bool_decide; lia.
Qed.

Lemma scheduler_emit_after_init_witness :
  policy (Sample.state_after (scheduler_emit (hdr := Sample.header))
            Sample.replaying)
    = [call_emit (list_ascii_of_string "run.sched-replay")].
Proof.
  unfold Sample.state_after.
  rewrite (scheduler_emit_after_init
             (hdr := Sample.header) (bld := Sample.build)
             (pol := Sample.policies)
             0 1 (list_ascii_of_string Sample.run_sched) 0
             Sample.armed Sample.replaying
             (λ path _ st, Returns (st ++ [call_emit path])));
    [vm_compute; reflexivity | vm_compute; discriminate
     | vm_compute; reflexivity | vm_compute; reflexivity].
Defined.

(** ** The facade seen from the policy *)

(** One facade operation that returns: the routine of the policy it
    stands for returned the same value, and the calls it made. *)
Lemma facade_call_effect
    {details : Type} {hdr : Header}
    (op : facade_op) (p p' : process details) (v : value) :
  facade_call op p = Returns (v, p') →
  let s := the_scheduler p in
  let path := output_path (scheduler.schedule_file s) (scheduler.mode s) in
  policy_call (scheduler.impl s) (scheduler.implDetails s) path
    (scheduler.n_executed s) (scheduler.mode s) op (policy p)
    = Returns (v, policy p') ∧
  calls p' = calls p ++ outward_calls path (scheduler.mode s) op.
Proof.
  intros Hr. cbn zeta.
  destruct op; unfold facade_call in Hr; unfold mbind at 1, M_bind in Hr.
  - destruct (scheduler_register_thread _ _ p) as [[u p1]| | |] eqn:Hc;
      try discriminate.
    injection Hr as <- <-.
    by apply scheduler_register_thread_returns in Hc as (_ & m & _ & ->).
  - destruct (scheduler_register_lcbn _ p) as [[u p1]| | |] eqn:Hc;
      try discriminate.
    injection Hr as <- <-. unfold scheduler_register_lcbn in Hc.
    rewrite guarded_eq in Hc. destruct (looks_valid p); [|discriminate].
    apply through_impl_returns in Hc as (r & d' & Hmem & Hret & ->).
    cbn beta in Hmem.
    destruct (void_member_returns _
                (λ routine d st, routine _ d st) _ _ _ _ _ Hmem Hret)
      as (routine & Hroutine & Hreturns).
    cbn [policy_call policy calls outward_calls].
    by rewrite Hroutine, Hreturns.
  - destruct (scheduler_next_lcbn_type p) as [[u p1]| | |] eqn:Hc;
      try discriminate.
    injection Hr as <- <-. unfold scheduler_next_lcbn_type in Hc.
    rewrite guarded_eq in Hc. destruct (looks_valid p); [|discriminate].
    apply through_impl_returns in Hc as (r & d' & Hmem & Hret & ->).
    cbn [policy_call policy calls outward_calls].
    by rewrite Hmem, Hret.
  - destruct (scheduler_thread_yield _ _ p) as [[u p1]| | |] eqn:Hc;
      try discriminate.
    injection Hr as <- <-. unfold scheduler_thread_yield in Hc.
    rewrite guarded_eq in Hc. destruct (looks_valid p); [|discriminate].
    apply through_impl_returns in Hc as (r & d' & Hmem & Hret & ->).
    cbn beta in Hmem.
    destruct (void_member_returns _
                (λ routine d st, routine _ _ d st) _ _ _ _ _ Hmem Hret)
      as (routine & Hroutine & Hreturns).
    cbn [policy_call policy calls outward_calls].
    by rewrite Hroutine, Hreturns.
  - destruct (scheduler_emit p) as [[u p1]| | |] eqn:Hc; try discriminate.
    injection Hr as <- <-.
    apply scheduler_emit_returns in Hc
      as (_ & n & routine & d' & Hn & Hroutine & _ & Hreturns & ->).
    cbn zeta in Hreturns.
    unfold output_path. rewrite (c_str_strlen _ _ Hn).
    cbn [policy_call policy calls outward_calls].
    rewrite Hroutine, Hreturns. by destruct u.
  - destruct (scheduler_lcbns_remaining p) as [[u p1]| | |] eqn:Hc;
      try discriminate.
    injection Hr as <- <-. unfold scheduler_lcbns_remaining in Hc.
    rewrite guarded_eq in Hc. destruct (looks_valid p); [|discriminate].
    apply through_impl_returns in Hc as (r & d' & Hmem & Hret & ->).
    cbn [policy_call policy calls outward_calls].
    by rewrite Hmem, Hret.
  - destruct (scheduler_schedule_has_diverged p) as [[u p1]| | |] eqn:Hc;
      try discriminate.
    injection Hr as <- <-. unfold scheduler_schedule_has_diverged in Hc.
    rewrite guarded_eq in Hc. destruct (looks_valid p); [|discriminate].
    apply through_impl_returns in Hc as (r & d' & Hmem & Hret & ->).
    cbn [policy_call policy calls outward_calls].
    by rewrite Hmem, Hret.
  - unfold scheduler_n_executed in Hr. rewrite guarded_eq in Hr.
    destruct (looks_valid p); [|discriminate].
    injection Hr as <- <-. by rewrite app_nil_r.
  - unfold scheduler_get_scheduler_mode in Hr. rewrite guarded_eq in Hr.
    destruct (looks_valid p); [|discriminate].
    injection Hr as <- <-. by rewrite app_nil_r.
Qed.

(** What a facade operation reads of the context is what no facade
    operation changes. *)
Lemma facade_call_reads
    {details : Type} {hdr : Header}
    (op : facade_op) (p p' : process details) (v : value) :
  facade_call op p = Returns (v, p') →
  scheduler.impl (the_scheduler p') = scheduler.impl (the_scheduler p) ∧
  scheduler.implDetails (the_scheduler p')
    = scheduler.implDetails (the_scheduler p) ∧
  scheduler.schedule_file (the_scheduler p')
    = scheduler.schedule_file (the_scheduler p) ∧
  scheduler.n_executed (the_scheduler p')
    = scheduler.n_executed (the_scheduler p) ∧
  scheduler.mode (the_scheduler p') = scheduler.mode (the_scheduler p).
Proof.
  intros (_ & _ & _ & Hs & _)%facade_call_returns.
  rewrite Hs. by destruct (the_scheduler p).
Qed.

Lemma facade_run_effect
    {details : Type} {hdr : Header} (ops : list facade_op) :
  ∀ (p p' : process details) (vs : list value),
    facade_run ops p = Returns (vs, p') →
    policy_view ops p = Returns (vs, policy p') ∧
    calls p' =
      calls p
        ++ concat (outward_calls
                     (output_path (scheduler.schedule_file (the_scheduler p))
                        (scheduler.mode (the_scheduler p)))
                     (scheduler.mode (the_scheduler p)) <$> ops).
Proof.
  unfold policy_view.
  induction ops as [|op ops IH]; intros p p' vs Hr.
  - injection Hr as <- <-. cbn. by rewrite app_nil_r.
  - apply facade_run_cons in Hr as (v & p1 & vs' & Hc & Hr & ->).
    destruct (facade_call_effect op p p1 v Hc) as [Hv Hl].
    destruct (facade_call_reads op p p1 v Hc) as (Hi & Hd & Hf & Hn & Hm).
    specialize (IH p1 p' vs' Hr) as [Hrun Hcalls].
    rewrite Hi, Hd, Hf, Hn, Hm in Hrun. rewrite Hf, Hm in Hcalls.
    cbn [policy_run fmap list_fmap concat].
    cbn zeta in Hv. rewrite Hv, Hrun. split; [done|].
    by rewrite Hcalls, Hl, app_assoc.
Qed.

(** In a context that is ready, a facade operation ends as the routine
    it stands for ends. *)
Lemma facade_call_sim
    {details : Type} {hdr : Header} (op : facade_op) (p : process details) :
  facade_ready p = true →
  let s := the_scheduler p in
  outcome_map (λ r, (r.1, policy r.2)) (facade_call op p) =
    policy_call (scheduler.impl s) (scheduler.implDetails s)
      (output_path (scheduler.schedule_file s) (scheduler.mode s))
      (scheduler.n_executed s) (scheduler.mode s) op (policy p).
Proof.
  unfold facade_ready. intros [[Hv Hm]%andb_true_iff Hfit]%andb_true_iff.
  destruct (scheduler.tidToType (the_scheduler p)) as [m|] eqn:Hreg;
    [clear Hm|discriminate].
  cbn zeta.
  destruct op; cbn [facade_call policy_call]; unfold mbind at 1, M_bind.
  - by rewrite (scheduler_register_thread_valid self role m p Hv Hreg).
  - unfold scheduler_register_lcbn. rewrite guarded_eq, Hv, through_impl_eq.
    destruct (register_lcbn (scheduler.impl (the_scheduler p))) as [r|];
      [|done].
    cbn. unfold returning_void. by destruct (r _ _ _).
  - unfold scheduler_next_lcbn_type. rewrite guarded_eq, Hv, through_impl_eq.
    destruct (next_lcbn_type (scheduler.impl (the_scheduler p))) as [r|];
      [|done].
    by destruct (r _ _) as [[a d]| | |].
  - unfold scheduler_thread_yield. rewrite guarded_eq, Hv, through_impl_eq.
    destruct (thread_yield (scheduler.impl (the_scheduler p))) as [r|];
      [|done].
    cbn. unfold returning_void. by destruct (r _ _ _ _).
  - rewrite (scheduler_emit_eq p Hv). cbn zeta.
    destruct (strlen (scheduler.schedule_file (the_scheduler p))) as [n|];
      [|discriminate].
    rewrite Hfit.
    destruct (emit (scheduler.impl (the_scheduler p))) as [r|]; [|done].
    by destruct (r _ _ _).
  - unfold scheduler_lcbns_remaining. rewrite guarded_eq, Hv, through_impl_eq.
    destruct (lcbns_remaining (scheduler.impl (the_scheduler p))) as [r|];
      [|done].
    by destruct (r _ _) as [[a d]| | |].
  - unfold scheduler_schedule_has_diverged.
    rewrite guarded_eq, Hv, through_impl_eq.
    destruct (has_diverged (scheduler.impl (the_scheduler p))) as [r|];
      [|done].
    by destruct (r _ _) as [[a d]| | |].
  - unfold scheduler_n_executed. by rewrite guarded_eq, Hv.
  - unfold scheduler_get_scheduler_mode. by rewrite guarded_eq, Hv.
Qed.

(** A facade operation leaves a ready context ready. *)
Lemma facade_call_ready
    {details : Type} {hdr : Header}
    (op : facade_op) (p p' : process details) (v : value) :
  facade_call op p = Returns (v, p') →
  facade_ready p = true → facade_ready p' = true.
Proof.
  intros Hc. unfold facade_ready, looks_valid.
  destruct (scheduler.tidToType (the_scheduler p)) as [m|] eqn:Hreg;
    [|by rewrite andb_false_r].
  assert (facade_run [op] p = Returns ([v], p')) as Hrun.
  { cbn [facade_run]. unfold mbind at 1, M_bind. by rewrite Hc. }
  rewrite (facade_run_registry _ _ _ _ _ Hrun Hreg).
  apply facade_call_returns in Hc as (_ & _ & -> & -> & _).
  by destruct (the_scheduler p).
Qed.

Lemma facade_run_sim
    {details : Type} {hdr : Header} (ops : list facade_op) :
  ∀ p : process details,
    facade_ready p = true →
    outcome_map (λ r, (r.1, policy r.2)) (facade_run ops p) = policy_view ops p.
Proof.
  unfold policy_view.
  induction ops as [|op ops IH]; intros p Hready; [done|].
  pose proof (facade_call_sim op p Hready) as Hsim. cbn zeta in Hsim.
  cbn [facade_run policy_run]. rewrite <- Hsim. unfold mbind at 1, M_bind.
  destruct (facade_call op p) as [[v p1]| | |] eqn:Hc; try done.
  cbn [outcome_map fst snd].
  destruct (facade_call_reads op p p1 v Hc) as (Hi & Hd & Hf & Hn & Hm).
  rewrite <- Hi, <- Hd, <- Hf, <- Hn, <- Hm.
  rewrite <- (IH p1 (facade_call_ready op p p1 v Hc Hready)).
  unfold mbind, M_bind. by destruct (facade_run ops p1) as [[vs p2]| | |].
Qed.

(** [scheduler_thread_yield] blocks when the routine of the policy
    does. *)
Lemma scheduler_thread_yield_blocks
    {details : Type} {hdr : Header} (point pointDetails : Z)
    (p : process details)
    (routine : Z → Z → Z → details → outcome details) :
  looks_valid p = true →
  thread_yield (scheduler.impl (the_scheduler p)) = Some routine →
  routine point pointDetails (scheduler.implDetails (the_scheduler p))
    (policy p) = Blocks →
  scheduler_thread_yield point pointDetails p = Blocks.
Proof.
  intros Hv Hroutine Hblocks. unfold scheduler_thread_yield.
  rewrite guarded_eq, Hv, through_impl_eq, Hroutine. cbn.
  by rewrite Hblocks.
Qed.

(** X12.  The facade is transparent to the policy.  A run of facade
    operations that returns has returned the values, and left the
    policy's memory in the state, that the routines of [scheduler.impl]
    give when they are called one after the other with the handle
    [scheduler.implDetails], in the order of the run; and in a context
    that is ready the run ends as these calls end: it returns, blocks,
    aborts or loses its meaning when they do.  The value of
    [emitSchedule] is the address of a dead array, not the path. *)
Theorem facade_run_is_policy_run
    {details : Type} {hdr : Header}
    (ops : list facade_op) (p : process details) :
  (∀ vs p', facade_run ops p = Returns (vs, p') →
            policy_view ops p = Returns (vs, policy p')) ∧
  (facade_ready p = true →
   outcome_map (λ r, (r.1, policy r.2)) (facade_run ops p)
     = policy_view ops p).
Proof.
  split.
  - intros vs p' Hr. by destruct (facade_run_effect ops p p' vs Hr).
  - by apply facade_run_sim.
Qed.

Lemma facade_run_is_policy_run_witness :
  let ops := [registerCallback 7; registerThread 5 Sample.LOOPER;
              yield 0 0; remainingCount; emitSchedule] in
  policy_view (hdr := Sample.header) ops Sample.replaying
    = Returns ([VVoid; VVoid; VVoid; VInt 0; VPointer dangling],
               [call_register_lcbn 7; call_thread_yield 0 0;
                call_emit (list_ascii_of_string "run.sched-replay")]) ∧
  outcome_map (λ r, (r.1, policy r.2))
    (facade_run (hdr := Sample.header) ops Sample.replaying)
    = policy_view (hdr := Sample.header) ops Sample.replaying.
Proof.
  intros ops.
  destruct (facade_run_is_policy_run (hdr := Sample.header)
              ops Sample.replaying) as [Hreturns Hends].
  split.
  - rewrite (Hreturns [VVoid; VVoid; VVoid; VInt 0; VPointer dangling]
               (Sample.state_after (facade_run (hdr := Sample.header) ops)
                  Sample.replaying))
      by (vm_compute; reflexivity).
    vm_compute; reflexivity.
  - apply Hends. vm_compute; reflexivity.
Defined.

(** X13.  The calls that a run of facade operations makes outside
    [scheduler.c], in order.  [registerThread] calls [uv_thread_self] and
    then [map_insert]; [emitSchedule] calls [strcpy], in REPLAY mode
    [strcat], and then the routine [emit]; [executedCount] and [getMode]
    call nothing; each other operation calls its routine of the policy
    and nothing else.  The checks of [assert], a macro, are not calls. *)
Theorem facade_run_calls
    {details : Type} {hdr : Header}
    (ops : list facade_op) (p p' : process details) (vs : list value) :
  facade_run ops p = Returns (vs, p') →
  calls_since p p' =
    concat (outward_calls
              (output_path (scheduler.schedule_file (the_scheduler p))
                 (scheduler.mode (the_scheduler p)))
              (scheduler.mode (the_scheduler p)) <$> ops).
Proof.
  intros Hr. apply calls_since_app.
  by destruct (facade_run_effect ops p p' vs Hr).
Qed.

Lemma facade_run_calls_witness :
  let ops := [executedCount; registerThread Sample.thread_a Sample.LOOPER;
              getMode; hasDiverged; emitSchedule] in
  calls_since Sample.replaying
    (Sample.state_after (facade_run (hdr := Sample.header) ops)
       Sample.replaying)
  = [call_uv_thread_self;
     call_map_insert (cast_int Sample.thread_a) Sample.LOOPER;
     call_has_diverged;
     call_strcpy; call_strcat;
     call_emit (list_ascii_of_string "run.sched-replay")].
Proof.
  intros ops.
  assert (facade_run (hdr := Sample.header) ops Sample.replaying
          = Returns ([VInt 0; VVoid; VInt 1; VInt 0; VPointer dangling],
                     Sample.state_after (facade_run (hdr := Sample.header) ops)
                       Sample.replaying)) as Hrun
    by (vm_compute; reflexivity).
  rewrite (facade_run_calls (hdr := Sample.header)
             ops Sample.replaying _ _ Hrun).
  vm_compute; reflexivity.
Defined.

(** X14.  [scheduler.c] never counts: after [scheduler_init], every
    [executedCount] of a run of facade operations returns 0. *)
Theorem executedCount_stays_zero
    {details : Type} {hdr : Header} {bld : Build} {pol : Policies details}
    (type mode : Z) (file : list ascii) (args : Z)
    (ops : list facade_op) (vs : list value) (p0 p1 p2 : process details) :
  scheduler_init type mode file args p0 = Returns (tt, p1) →
  facade_run ops p1 = Returns (vs, p2) →
  Forall (λ z, z = 0) (executed_counts ops vs).
Proof.
  intros (_ & _ & e & table & handle & d & _ & ->)%scheduler_init_returns.
  by intros (_ & _ & _ & _ & _ & Hn)%facade_run_returns.
Qed.

Lemma executedCount_stays_zero_witness :
  let ops := [executedCount; registerCallback 7; yield 0 0; yield 1 0;
              executedCount] in
  ∃ vs,
    result_of (facade_run (hdr := Sample.header) ops Sample.recording)
      = Returns vs ∧
    Forall (λ z, z = 0) (executed_counts ops vs).
Proof.
  intros ops. eexists. split; [vm_compute; reflexivity|].
  apply (executedCount_stays_zero
           (hdr := Sample.header) (bld := Sample.build)
           (pol := Sample.policies)
           0 0 (list_ascii_of_string Sample.run_sched) 0 ops _
           Sample.armed Sample.recording
           (Sample.state_after (facade_run (hdr := Sample.header) ops)
              Sample.recording));
    vm_compute; reflexivity.
Defined.

(** ** The protected lock *)

Lemma free_or_held_by_held (self : Z) (m : reentrant_mutex_t) :
  free_or_held_by self m → m = held self (depth m).
Proof.
  destruct m as [o d]. intros [[Ho Hd]|[Ho Hd]]; cbn in *; subst.
  - done.
  - by destruct d; [lia|].
Qed.

Lemma reentrant_mutex_lock_held (self : Z) (d : nat) :
  reentrant_mutex_lock self (held self d) = Returns (held self (S d)).
Proof.
  unfold reentrant_mutex_lock. destruct d; cbn; [done|].
  by rewrite decide_True.
Qed.

Lemma reentrant_mutex_unlock_held (self : Z) (d : nat) :
  reentrant_mutex_unlock self (held self (S d)) = Returns (held self d).
Proof.
  unfold reentrant_mutex_unlock. cbn. rewrite decide_True by done.
  by destruct d.
Qed.

Lemma set_mutex_set_mutex
    {details : Type} (a b : reentrant_mutex_t) (s : scheduler.t details) :
  scheduler.set_mutex a (scheduler.set_mutex b s) = scheduler.set_mutex a s.
Proof. done. Qed.

Lemma times_lock_held
    {details : Type} (self : Z) (k : nat) :
  ∀ (d : nat) (p : process details),
    scheduler.mutex (the_scheduler p) = held self d →
    ∃ p',
      times k (scheduler__lock self) p = Returns (tt, p') ∧
      the_scheduler p' =
        scheduler.set_mutex (held self (k + d)) (the_scheduler p) ∧
      policy p' = policy p ∧
      initialized p' = initialized p ∧
      scheduler_initialized p' = scheduler_initialized p.
Proof.
  induction k as [|k IH]; intros d p Hm.
  - exists p. split_and!; try done. cbn. rewrite <- Hm.
    by destruct (the_scheduler p).
  - cbn [times]. unfold mbind at 1, M_bind.
    assert (scheduler__lock self p =
              Returns (tt,
                {| initialized := initialized p;
                   scheduler_initialized := scheduler_initialized p;
                   the_scheduler :=
                     scheduler.set_mutex (held self (S d)) (the_scheduler p);
                   policy := policy p;
                   calls := calls p ++ [call_reentrant_mutex_lock self] |}))
      as ->.
    { unfold scheduler__lock. run. by rewrite Hm, reentrant_mutex_lock_held. }
    lazymatch goal with
    | |- context [times k _ ?q] =>
        destruct (IH (S d) q eq_refl) as (p' & -> & Hs & Hp & Hi & Hsi)
    end.
    exists p'. split_and!; try done.
    rewrite Hs. cbn [the_scheduler]. rewrite set_mutex_set_mutex.
    by replace (k + S d)%nat with (S k + d)%nat by lia.
Qed.

Lemma times_unlock_held
    {details : Type} (self : Z) (k : nat) :
  ∀ (d : nat) (p : process details),
    scheduler.mutex (the_scheduler p) = held self (k + d) →
    ∃ p',
      times k (scheduler__unlock self) p = Returns (tt, p') ∧
      the_scheduler p' = scheduler.set_mutex (held self d) (the_scheduler p) ∧
      policy p' = policy p ∧
      initialized p' = initialized p ∧
      scheduler_initialized p' = scheduler_initialized p.
Proof.
  induction k as [|k IH]; intros d p Hm.
  - exists p. split_and!; try done. cbn in Hm. rewrite <- Hm.
    by destruct (the_scheduler p).
  - cbn [times]. unfold mbind at 1, M_bind.
    assert (scheduler__unlock self p =
              Returns (tt,
                {| initialized := initialized p;
                   scheduler_initialized := scheduler_initialized p;
                   the_scheduler :=
                     scheduler.set_mutex (held self (k + d)) (the_scheduler p);
                   policy := policy p;
                   calls := calls p ++ [call_reentrant_mutex_unlock self] |}))
      as ->.
    { change (S k + d)%nat with (S (k + d)) in Hm.
      unfold scheduler__unlock. unfold_monad. cbn [the_scheduler].
      by rewrite Hm, reentrant_mutex_unlock_held. }
    lazymatch goal with
    | |- context [times k _ ?q] =>
        destruct (IH d q eq_refl) as (p' & -> & Hs & Hp & Hi & Hsi)
    end.
    exists p'. split_and!; done.
Qed.

(** X15.  With the reentrant mutex of the spec, a thread that finds the
    lock free, or holds it, can call [scheduler__lock] any number of
    times; as many calls of [scheduler__unlock] then return and leave
    the context as it was.  Neither function asserts that the scheduler
    looks valid. *)
Theorem scheduler__lock_unlock_nested
    {details : Type} (self : Z) (k : nat) (p : process details) :
  free_or_held_by self (scheduler.mutex (the_scheduler p)) →
  ∃ p1 p2,
    times k (scheduler__lock self) p = Returns (tt, p1) ∧
    scheduler.mutex (the_scheduler p1)
      = held self (k + depth (scheduler.mutex (the_scheduler p))) ∧
    times k (scheduler__unlock self) p1 = Returns (tt, p2) ∧
    the_scheduler p2 = the_scheduler p ∧
    policy p2 = policy p.
Proof.
  intros Hm%free_or_held_by_held.
  destruct (times_lock_held self k _ p Hm) as (p1 & Hl & Hs1 & Hp1 & _).
  assert (scheduler.mutex (the_scheduler p1)
          = held self (k + depth (scheduler.mutex (the_scheduler p)))) as Hm1
    by (by rewrite Hs1).
  destruct (times_unlock_held self k _ p1 Hm1) as (p2 & Hu & Hs2 & Hp2 & _).
  exists p1, p2. split_and!; try done; [|congruence].
  rewrite Hs2, Hs1, set_mutex_set_mutex, <- Hm.
  by destruct (the_scheduler p).
Qed.

Lemma scheduler__lock_unlock_nested_witness :
  ∃ p1 p2,
    times 3 (scheduler__lock 5) Sample.boot = Returns (tt, p1) ∧
    scheduler.mutex (the_scheduler p1) = {| owner := Some 5; depth := 3 |} ∧
    times 3 (scheduler__unlock 5) p1 = Returns (tt, p2) ∧
    the_scheduler p2 = the_scheduler Sample.boot ∧
    policy p2 = policy Sample.boot.
Proof.
  apply (scheduler__lock_unlock_nested 5 3 Sample.boot).
  left. split; reflexivity.
Defined.

(** ** The magic number *)

Lemma api_call_built
    {details : Type} {hdr : Header} {bld : Build} {pol : Policies details}
    (op : api_op) (p p' : process details) u :
  api_call op p = Returns (u, p') → registry_built p → registry_built p'.
Proof.
  destruct u. unfold registry_built.
  destruct op as [type mode file args|op|self|self|tid]; cbn [api_call].
  - intros (_ & _ & e & table & handle & d & _ & ->)%scheduler_init_returns.
    intros _ _. cbn. by eexists.
  - unfold mbind, M_bind.
    destruct (facade_call op p) as [[v p1]| | |] eqn:Hc; try discriminate.
    intros [= <-] Hb.
    destruct (decide (is_registerThread op = true)) as [Hreg|Hreg].
    + destruct op; try discriminate. cbn [facade_call] in Hc.
      unfold mbind, M_bind in Hc.
      destruct (scheduler_register_thread self role p)
        as [[[] p2]| | |] eqn:Hr; try discriminate.
      injection Hc as <- <-.
      apply scheduler_register_thread_returns in Hr as (_ & m & _ & ->).
      cbn. intros _. by eexists.
    + apply facade_call_returns in Hc as (_ & _ & _ & _ & Hsame & _).
      rewrite Hsame by (by destruct (is_registerThread op)). done.
  - intros (mx & _ & ->)%scheduler__lock_returns. done.
  - intros (mx & _ & ->)%scheduler__unlock_returns. done.
  - unfold mbind, M_bind.
    destruct (scheduler__get_thread_type tid p) as [[v p1]| | |] eqn:Hc;
      try discriminate.
    intros [= <-].
    by apply scheduler__get_thread_type_returns in Hc as (m & _ & _ & ->).
Qed.

Lemma api_run_built
    {details : Type} {hdr : Header} {bld : Build} {pol : Policies details}
    (ops : list api_op) :
  ∀ p p' : process details,
    api_run ops p = Returns (tt, p') → registry_built p → registry_built p'.
Proof.
  induction ops as [|op ops IH]; intros p p' Hrun Hb.
  - by injection Hrun as <-.
  - cbn [api_run] in Hrun. unfold mbind at 1, M_bind in Hrun.
    destruct (api_call op p) as [[u p1]| | |] eqn:Hc; try discriminate.
    eapply IH; [done|]. by eapply api_call_built.
Qed.

(** X16.  The magic number guards the registry.  In a process that
    starts without the magic number in [scheduler.magic], after any
    sequence of calls to the functions of [scheduler.c] that returned,
    [scheduler_register_thread] fails its assertion or returns: it never
    hands a null map to [map_insert], because the only assignment of the
    magic number is followed by the creation of the map and
    [assert(scheduler.tidToType != NULL)]. *)
Theorem scheduler_register_thread_never_null
    {details : Type} {hdr : Header} {bld : Build} {pol : Policies details}
    (ops : list api_op) (p p' : process details) (self role : Z) :
  scheduler.magic (the_scheduler p) ≠ SCHEDULER_MAGIC →
  api_run ops p = Returns (tt, p') →
  scheduler_register_thread self role p' = Aborts ∨
  returned (scheduler_register_thread self role p') = true.
Proof.
  intros Hmagic Hrun.
  assert (registry_built p') as Hb.
  { eapply api_run_built; [done|]. intros Hm. done. }
  destruct (looks_valid p') eqn:Hv.
  - right. pose proof Hv as Hv'. unfold looks_valid in Hv'.
    apply andb_true_iff in Hv' as [_ Hm%Z.eqb_eq].
    destruct (Hb Hm) as [m Hreg].
    by rewrite (scheduler_register_thread_valid self role m p' Hv Hreg).
  - left. unfold scheduler_register_thread. by rewrite guarded_eq, Hv.
Qed.

Lemma scheduler_register_thread_never_null_witness :
  let ops := [api_init 0 0 (list_ascii_of_string "run.sched") 0;
              api_lock 5; api_facade (yield 0 0); api_unlock 5] in
  let p' :=
    Sample.state_after
      (api_run (hdr := Sample.header) (bld := Sample.build)
         (pol := Sample.policies) ops) Sample.armed in
  scheduler.magic (the_scheduler Sample.armed) = 0 ∧
  returned (scheduler_register_thread Sample.thread_a Sample.LOOPER p') = true.
Proof.
  intros ops p'. split; [reflexivity|].
  destruct (scheduler_register_thread_never_null
              (hdr := Sample.header) (bld := Sample.build)
              (pol := Sample.policies) ops Sample.armed p'
              Sample.thread_a Sample.LOOPER
              ltac:(vm_compute; discriminate) ltac:(vm_compute; reflexivity))
    as [Haborts|Hreturns].
  - exfalso. revert Haborts. vm_compute. discriminate.
  - exact Hreturns.
Defined.
